(** * fishroom: the forwarding engine of [fishroom/fishroom.py]

    A shallow embedding of [ForwardingThread] (binding resolution, command
    dispatch, overflow policy, fan-out) and of the [Message] model of
    [fishroom/models.py], with the properties of the design document
    stated over it.

    Python values are modelled as follows.
    - [str] is a list of Unicode code points ([pystr]);
      [s.encode('utf-8')] is [utf8_encode], which fails on lone surrogates
      as CPython does.
    - a [dict] with string keys is a [gmap pystr _]; [d[k]] raises
      [KeyError] when the key is absent.
    - the collaborators the engine calls (adapters, chat logger, text
      store, command registry) are recorded in a trace of [event]s; what
      they return is given by an [Env] and a [TextStore]. *)

From Stdlib Require Import NArith String Ascii.
From stdpp Require Import base option list gmap.

Local Open Scope N_scope.

(** ** Python strings *)

Module PyStr.

(** A Python [str]: a sequence of code points. *)
Abbreviation pystr := (list N).

(** The code points of an ASCII literal, to write strings readably. *)
Definition py (s : string) : pystr :=
  List.map N_of_ascii (list_ascii_of_string s).

Definition NL : N := 10.

(** [s.count('\n')] for a one-character needle. *)
Fixpoint count (ch : N) (s : pystr) : nat :=
  match s with
  | [] => 0%nat
  | x :: rest => if decide (x = ch) then S (count ch rest) else count ch rest
  end.

(** [s.split(sep)] for a one-character separator: never empty, the
    separator itself is dropped, empty fields are kept. *)
Fixpoint split (sep : N) (s : pystr) : list pystr :=
  match s with
  | [] => [[]]
  | x :: rest =>
      if decide (x = sep) then [] :: split sep rest
      else match split sep rest with
           | [] => [[x]]
           | field :: fields => (x :: field) :: fields
           end
  end.

(** [sep.join(fields)]. *)
Fixpoint join (sep : N) (fields : list pystr) : pystr :=
  match fields with
  | [] => []
  | [field] => field
  | field :: rest => field ++ sep :: join sep rest
  end.

(** The UTF-8 encoding of one code point.  Surrogates (U+D800..U+DFFF)
    cannot be encoded: CPython raises [UnicodeEncodeError].  Values from
    0x110000 on are not code points at all. *)
Definition utf8_encode_char (c : N) : option (list N) :=
  if c <? 0x80 then Some [c]
  else if c <? 0x800 then Some [0xC0 + c / 64; 0x80 + c mod 64]
  else if c <? 0x10000 then
    if (0xD800 <=? c) && (c <=? 0xDFFF) then None
    else Some [0xE0 + c / 4096; 0x80 + (c / 64) mod 64; 0x80 + c mod 64]
  else if c <? 0x110000 then
    Some [0xF0 + c / 262144; 0x80 + (c / 4096) mod 64;
          0x80 + (c / 64) mod 64; 0x80 + c mod 64]
  else None.

(** [s.encode('utf-8')]. *)
Fixpoint utf8_encode (s : pystr) : option (list N) :=
  match s with
  | [] => Some []
  | c :: rest =>
      match utf8_encode_char c, utf8_encode rest with
      | Some bs, Some bs' => Some (bs ++ bs')
      | _, _ => None
      end
  end.

(** The characters the regular expression class [\s] matches on a [str]
    pattern: CPython's [Py_UNICODE_ISSPACE]. *)
Definition isspace (c : N) : bool :=
  ((0x09 <=? c) && (c <=? 0x0D)) || ((0x1C <=? c) && (c <=? 0x20))
  || (c =? 0x85) || (c =? 0xA0) || (c =? 0x1680)
  || ((0x2000 <=? c) && (c <=? 0x200A))
  || (c =? 0x2028) || (c =? 0x2029) || (c =? 0x202F) || (c =? 0x205F)
  || (c =? 0x3000).

(** [re.match(r'^\s*$', line)] as a truth value: the greedy [\s*] must
    reach the end of the string, or stop before a final newline, which
    is itself in [\s]; so the pattern matches exactly the strings made
    of whitespace only. *)
Definition match_blank (line : pystr) : bool := forallb isspace line.

(** ASCII lower-casing, the restriction of [str.lower] to ASCII text. *)
Definition ascii_lower (s : pystr) : pystr :=
  List.map (fun c => if (0x41 <=? c) && (c <=? 0x5A) then c + 32 else c) s.

End PyStr.
Import PyStr.

(** ** [fishroom/models.py] *)

Module ChannelType.
Definition XMPP : pystr := py "xmpp".
Definition IRC : pystr := py "irc".
Definition Telegram : pystr := py "telegram".
End ChannelType.

Module MessageType.
Definition Text : pystr := py "text".
Definition Photo : pystr := py "photo".
Definition Sticker : pystr := py "sticker".
Definition Event : pystr := py "event".
Definition Command : pystr := py "command".
End MessageType.

(** [class Message]: the eight attributes [__init__] sets.  [None] in
    [date], [time] and [media_url] is [None] here. *)
Record Message := mkMessage {
  channel : pystr;
  sender : pystr;
  receiver : pystr;
  content : pystr;
  mtype : pystr;
  date : option pystr;
  time : option pystr;
  media_url : option pystr;
}.

(** [Message(channel, sender, receiver, content=..., date=..., time=...)]:
    the call of the engine, which leaves [mtype] and [media_url] to the
    defaults of [__init__]. *)
Definition Message_init (channel sender receiver content : pystr)
    (date time : option pystr) : Message :=
  mkMessage channel sender receiver content MessageType.Text date time None.

(** [msg.mtype = t]. *)
Definition set_mtype (msg : Message) (t : pystr) : Message :=
  mkMessage (channel msg) (sender msg) (receiver msg) (content msg) t
            (date msg) (time msg) (media_url msg).

#[global] Instance Message_eq_dec : EqDecision Message.
Proof. solve_decision. Defined.

(** ** Exceptions, collaborators and the trace of calls *)

Inductive exn :=
| KeyError (key : pystr)
| UnicodeEncodeError
| Exception (what : pystr).

Inductive result (A : Type) :=
| Ok (a : A)
| Raise (e : exn).
Arguments Ok {A} a.
Arguments Raise {A} e.

(** A channel handle of [channels]; the engine reads its [ChanTag] and
    calls its [send_msg]. *)
Record Adapter := mkAdapter { ChanTag : pystr }.

#[global] Instance Adapter_eq_dec : EqDecision Adapter.
Proof. solve_decision. Defined.

(** What the two [print] calls of the loop show. *)
Inductive diag :=
| DiagMsg (msg : Message) (c : option pystr) (nbytes : nat)
| DiagPasteFailed.

(** The calls the engine makes on its collaborators, in order. *)
Inductive event :=
| Print (d : diag)
| ChatLog (c : pystr) (msg : Message)
| NewPaste (text sender c : pystr) (date time : option pystr) (msg_id : nat)
| SendMsg (c : Adapter) (target text : pystr).

#[global] Instance diag_eq_dec : EqDecision diag.
Proof. solve_decision. Defined.

#[global] Instance event_eq_dec : EqDecision event.
Proof. solve_decision. Defined.

(** A command handler, called as [handler(cmd, *args, msg=msg)]; it
    returns a string or [None], or raises. *)
Definition Handler : Type :=
  pystr → list pystr → Message → result (option pystr).

(** A row of the binding table: network name to address. *)
Abbreviation binding := (gmap pystr pystr).

(** What the engine takes from its surroundings: [str.lower], the
    configuration, the command module and the chat logger. *)
Record Env := mkEnv {
  str_lower : pystr → pystr;
  config_bindings : list (pystr * binding);
  config_name : option pystr;
  parse_command : pystr → result (pystr * list pystr);
  get_command_handler : pystr → result (option Handler);
  chat_logger_log : pystr → Message → nat;
}.

(** [text_store]: [new_paste] returns the URL of the paste, or [None]. *)
Record TextStore := mkTextStore {
  new_paste : pystr → pystr → pystr → option pystr → option pystr → nat →
              option pystr;
}.

(** A computation of the engine: the calls made so far, and how it ended. *)
Definition eff (A : Type) : Type := list event * result A.

#[global] Instance eff_ret : MRet eff := λ A a, ([], Ok a).

#[global] Instance eff_bind : MBind eff := λ A B f m,
  match m with
  | (tr, Ok a) => let '(tr', r) := f a in (tr ++ tr', r)
  | (tr, Raise e) => (tr, Raise e)
  end.

#[global] Arguments eff_ret : simpl never.
#[global] Arguments eff_bind : simpl never.

Definition emit (e : event) : eff unit := ([e], Ok tt).

Definition lift {A} (r : result A) : eff A := ([], r).

#[global] Arguments emit : simpl never.
#[global] Arguments lift : simpl never.

(** [for x in l: body(x)]. *)
Fixpoint for_each {A} (l : list A) (body : A → eff unit) : eff unit :=
  match l with
  | [] => mret tt
  | x :: rest => body x;; for_each rest body
  end.

(** [d[k]]. *)
Definition getitem (d : binding) (k : pystr) : result pystr :=
  match d !! k with
  | Some v => Ok v
  | None => Raise (KeyError k)
  end.

(** Truth value of what a handler returned: [None] and [""] are false. *)
Definition truthy (v : option pystr) : bool :=
  match v with
  | Some (_ :: _) => true
  | _ => false
  end.

Definition str_of (v : option pystr) : pystr := default [] v.

(** [msg_tmpl.format(sender=..., content=...)] and [ev_tmpl.format(...)]. *)
Definition msg_tmpl (sender content : pystr) : pystr :=
  py "[" ++ sender ++ py "] " ++ content.

Definition ev_tmpl (content : pystr) : pystr := content.

(** ** [fishroom/fishroom.py]: [ForwardingThread] *)

Section Engine.

Context (E : Env).

(** [get_binding(msg)]: the first row of [bindings.items()] whose address
    for the (lower-cased) network of the message is the receiver;
    [(None, None)] is [None].  A row without that network raises. *)
Fixpoint get_binding_from (items : list (pystr * binding)) (msg : Message)
    : result (option (pystr * binding)) :=
  match items with
  | [] => Ok None
  | (c, b) :: rest =>
      match getitem b (str_lower E (channel msg)) with
      | Ok addr =>
          if decide (receiver msg = addr) then Ok (Some (c, b))
          else get_binding_from rest msg
      | Raise e => Raise e
      end
  end.

Definition get_binding (msg : Message) : result (option (pystr * binding)) :=
  get_binding_from (config_bindings E) msg.

(** The body of the [try]: parse, look the handler up, run it.  The value
    is the new [bot_reply]; with no handler it stays [""].  A parse result
    that does not unpack into [cmd, args] counts as a parse that raises. *)
Definition run_command (msg : Message) : result (option pystr) :=
  match parse_command E (content msg) with
  | Ok (cmd, args) =>
      match get_command_handler E cmd with
      | Ok (Some handler) => handler cmd args msg
      | Ok None => Ok (Some [])
      | Raise e => Raise e
      end
  | Raise e => Raise e
  end.

(** "Handle commands": the message after the block, and [bot_reply]. *)
Definition dispatch (msg : Message) : Message * option pystr :=
  if decide (mtype msg = MessageType.Command) then
    match run_command msg with
    | Ok reply => (msg, reply)
    | Raise _ => (set_mtype msg MessageType.Text, Some [])
    end
  else (msg, Some []).

(** [config.get("name", "bot")]. *)
Definition bot_name : pystr := default (py "bot") (config_name E).

(** The synthetic message the reply is logged as. *)
Definition reply_message (msg : Message) (bot_reply : option pystr) : Message :=
  Message_init (channel msg) bot_name (receiver msg) (str_of bot_reply)
               (date msg) (time msg).

(** The condition of the overflow policy.  [or] does not evaluate the
    encoding when the newline count already decides. *)
Definition overflows (text : pystr) : result bool :=
  if decide (5 < count NL text)%nat then Ok true
  else match utf8_encode text with
       | Some bytes => Ok (bool_decide (400 ≤ length bytes)%nat)
       | None => Raise UnicodeEncodeError
       end.

(** The lines of a message that is relayed inline. *)
Definition inline_contents (text : pystr) : list pystr :=
  List.filter (λ line, negb (match_blank line)) (split NL text).

(** The loop over [channels] of an event message. *)
Definition send_event (channels : list Adapter) (b : binding) (msg : Message)
    : eff unit :=
  for_each channels (λ c,
    target ← lift (getitem b (str_lower E (ChanTag c)));
    emit (SendMsg c target (ev_tmpl (content msg)))).

(** The loop over [channels] of any other message. *)
Definition send_contents (channels : list Adapter) (b : binding)
    (msg : Message) (contents : list pystr) (send_back : bool)
    (bot_reply : option pystr) : eff unit :=
  for_each channels (λ c,
    target ← lift (getitem b (str_lower E (ChanTag c)));
    (if bool_decide (ChanTag c ≠ channel msg) || send_back
     then for_each contents (λ line,
            emit (SendMsg c target (msg_tmpl (sender msg) line)))
     else mret tt);;
    if truthy bot_reply then emit (SendMsg c target (str_of bot_reply))
    else mret tt).

(** "Other Message": [contents] and [send_back], or [None] when the paste
    failed and the loop goes on to the next message. *)
Definition overflow_policy (text_store : TextStore) (c : pystr)
    (msg : Message) (msg_id : nat) : eff (option (list pystr * bool)) :=
  over ← lift (overflows (content msg));
  if (over : bool) then
    emit (NewPaste (content msg) (sender msg) c (date msg) (time msg) msg_id);;
    match new_paste text_store (content msg) (sender msg) c
                    (date msg) (time msg) msg_id with
    | None => emit (Print DiagPasteFailed);; mret None
    | Some text_url => mret (Some ([text_url ++ py " (long text)"], true))
    end
  else mret (Some (inline_contents (content msg), false)).

(** From the logging on: what the loop does with a routed message once the
    command block is over. *)
Definition relay (channels : list Adapter) (text_store : TextStore)
    (c : pystr) (b : binding) (msg : Message) (bot_reply : option pystr)
    : eff unit :=
  let msg_id := chat_logger_log E c msg in
  emit (ChatLog c msg);;
  (if truthy bot_reply then emit (ChatLog c (reply_message msg bot_reply))
   else mret tt);;
  if decide (mtype msg = MessageType.Event) then send_event channels b msg
  else
    r ← overflow_policy text_store c msg msg_id;
    match r with
    | None => mret tt
    | Some (contents, send_back) =>
        send_contents channels b msg contents send_back bot_reply
    end.

(** One turn of the loop. *)
Definition forward (channels : list Adapter) (text_store : TextStore)
    (msg : Message) : eff unit :=
  r ← lift (get_binding msg);
  nbytes ← lift (match utf8_encode (content msg) with
                 | Some bytes => Ok (length bytes)
                 | None => Raise UnicodeEncodeError
                 end);
  emit (Print (DiagMsg msg (fst <$> r) nbytes));;
  match r with
  | None => mret tt
  | Some (c, b) =>
      let '(msg', bot_reply) := dispatch msg in
      relay channels text_store c b msg' bot_reply
  end.

(** [ForwardingThread(channels, text_store)] on the messages the bus
    delivers: the turns in order, until one raises. *)
Fixpoint ForwardingThread (channels : list Adapter) (text_store : TextStore)
    (stream : list Message) : eff unit :=
  match stream with
  | [] => mret tt
  | msg :: rest =>
      forward channels text_store msg;;
      ForwardingThread channels text_store rest
  end.

End Engine.

(** ** Reading a trace *)

Definition is_send (ev : event) : bool :=
  match ev with SendMsg _ _ _ => true | _ => false end.

(** The calls of [send_msg] on one adapter. *)
Definition is_send_by (a : Adapter) (ev : event) : bool :=
  match ev with SendMsg c _ _ => bool_decide (c = a) | _ => false end.

Definition is_log (ev : event) : bool :=
  match ev with ChatLog _ _ => true | _ => false end.

Definition is_paste (ev : event) : bool :=
  match ev with NewPaste _ _ _ _ _ _ => true | _ => false end.

(** The address a row binds an adapter to ([b[c.ChanTag.lower()]]), and
    the rows that bind every adapter of [channels]. *)
Definition address (E : Env) (b : binding) (c : Adapter) : pystr :=
  default [] (b !! str_lower E (ChanTag c)).

Definition binds (E : Env) (b : binding) (channels : list Adapter) : Prop :=
  Forall (λ c, is_Some (b !! str_lower E (ChanTag c))) channels.

(** No row of the table matches the message: every row has an address for
    the network of the message, and it is not the receiver. *)
Definition no_row_matches (E : Env) (msg : Message) : Prop :=
  Forall (λ row : pystr * binding,
            ∃ addr, row.2 !! str_lower E (channel msg) = Some addr
                    ∧ receiver msg ≠ addr)
         (config_bindings E).

(** The sends of one adapter for a message relayed as [contents]: the
    formatted lines when the adapter qualifies, then the reply if any. *)
Definition adapter_sends (E : Env) (b : binding) (msg : Message)
    (contents : list pystr) (send_back : bool) (bot_reply : option pystr)
    (c : Adapter) : list event :=
  (if bool_decide (ChanTag c ≠ channel msg) || send_back
   then List.map (λ line, SendMsg c (address E b c)
                                  (msg_tmpl (sender msg) line)) contents
   else [])
  ++ (if truthy bot_reply then [SendMsg c (address E b c) (str_of bot_reply)]
      else []).

(** The log calls of a routed message: the message, then the reply. *)
Definition log_calls (E : Env) (c : pystr) (msg : Message)
    (bot_reply : option pystr) : list event :=
  ChatLog c msg ::
  (if truthy bot_reply then [ChatLog c (reply_message E msg bot_reply)]
   else []).

(** The condition of the overflow policy in the words of the design:
    more than 5 newline characters, or at least 400 bytes of UTF-8. *)
Definition oversized (text : pystr) (bytes : list N) : Prop :=
  (5 < count_occ N.eq_dec text NL)%nat ∨ (400 ≤ length bytes)%nat.

(** The property that a routed event goes to the adapters of the other
    networks and is kept away from the adapter of its own. *)
Definition event_to_others_only (E : Env) (channels : list Adapter)
    (text_store : TextStore) (msg : Message) : Prop :=
  ∀ c b,
    get_binding E msg = Ok (Some (c, b)) →
    mtype msg = MessageType.Event →
    (∀ a, a ∈ channels → ChanTag a ≠ channel msg →
       SendMsg a (address E b a) (content msg)
         ∈ (forward E channels text_store msg).1)
    ∧ (∀ a target text,
         SendMsg a target text ∈ (forward E channels text_store msg).1 →
         ChanTag a ≠ channel msg).

(** The property that a non-empty reply of the command block reaches every
    adapter and the log. *)
Definition reply_reaches_all (E : Env) (channels : list Adapter)
    (text_store : TextStore) (msg : Message) : Prop :=
  ∀ c b reply,
    get_binding E msg = Ok (Some (c, b)) →
    (dispatch E msg).2 = Some reply → reply ≠ [] →
    (∀ a, a ∈ channels →
       SendMsg a (address E b a) reply
         ∈ (forward E channels text_store msg).1)
    ∧ ChatLog c (reply_message E (dispatch E msg).1 (Some reply))
        ∈ (forward E channels text_store msg).1.

(** The command block fails on a message: parsing it raises, or looking
    the handler up raises, or the handler raises. *)
Definition command_raises (E : Env) (msg : Message) (e : exn) : Prop :=
  parse_command E (content msg) = Raise e
  ∨ (∃ cmd args, parse_command E (content msg) = Ok (cmd, args)
                 ∧ get_command_handler E cmd = Raise e)
  ∨ (∃ cmd args handler,
       parse_command E (content msg) = Ok (cmd, args)
       ∧ get_command_handler E cmd = Ok (Some handler)
       ∧ handler cmd args msg = Raise e).

(** ** A configuration to run the engine on *)

Module Ex.

Definition room1 : binding :=
  {[ py "irc" := py "#a"; py "xmpp" := py "room@conf";
     py "telegram" := py "-100123" ]}.

Definition tghandle : Adapter := mkAdapter ChannelType.Telegram.
Definition irchandle : Adapter := mkAdapter ChannelType.IRC.
Definition xmpphandle : Adapter := mkAdapter ChannelType.XMPP.

(** The order of [main]. *)
Definition channels : list Adapter := [tghandle; irchandle; xmpphandle].

Definition ping : Handler := λ _ _ _, Ok (Some (py "pong")).
Definition boom : Handler := λ _ _ _, Raise (Exception (py "boom")).

(** A command is [!name] followed by anything. *)
Definition parse (text : pystr) : result (pystr * list pystr) :=
  match text with
  | 33 :: rest => Ok (take 4 rest, [drop 4 rest])
  | _ => Raise (Exception (py "not a command"))
  end.

Definition handlers (cmd : pystr) : result (option Handler) :=
  if decide (cmd = py "ping") then Ok (Some ping)
  else if decide (cmd = py "boom") then Ok (Some boom)
  else Ok None.

Definition env : Env :=
  mkEnv ascii_lower [(py "room1", room1)] None parse handlers (λ _ _, 7%nat).

Definition store_ok : TextStore :=
  mkTextStore (λ _ _ _ _ _ _, Some (py "http://p/1")).

Definition store_down : TextStore := mkTextStore (λ _ _ _ _ _ _, None).

Definition from_irc (text mtype : pystr) : Message :=
  mkMessage ChannelType.IRC (py "alice") (py "#a") text mtype None None None.

Definition hi : Message := from_irc (py "hi") MessageType.Text.

Definition lines : Message :=
  from_irc (py "one" ++ [NL; 32; NL] ++ py "two" ++ [NL]) MessageType.Text.

Definition joined : Message := from_irc (py "bob joined") MessageType.Event.

Definition long : Message := from_irc (replicate 401 120) MessageType.Text.

Definition cmd_ping : Message := from_irc (py "!ping") MessageType.Command.

Definition cmd_boom : Message := from_irc (py "!boom") MessageType.Command.

Definition long_ping : Message :=
  from_irc (py "!ping" ++ replicate 400 120) MessageType.Command.

Definition stray : Message :=
  mkMessage ChannelType.IRC (py "alice") (py "#b") (py "hi") MessageType.Text
            None None None.

(** A table of two rooms, and a table whose only row has no XMPP room. *)
Definition room2 : binding :=
  {[ py "irc" := py "#b"; py "xmpp" := py "b@conf";
     py "telegram" := py "-100456" ]}.

Definition env2 : Env :=
  mkEnv ascii_lower [(py "room1", room1); (py "room2", room2)] None
        parse handlers (λ _ _, 7%nat).

Definition env_no_xmpp : Env :=
  mkEnv ascii_lower [(py "room1", delete (py "xmpp") room1)] None
        parse handlers (λ _ _, 7%nat).

Definition from_xmpp : Message :=
  mkMessage ChannelType.XMPP (py "bob") (py "room@conf") (py "yo")
            MessageType.Text None None None.

(** The [irc] and [xmpp] sections of a configuration. *)
Definition irc_section : gmap pystr pystr :=
  {[ py "server" := py "irc.example.org"; py "port" := py "6697";
     py "nick" := py "fishroom"; py "ssl" := py "true";
     py "blacklist" := py "" ]}.

Definition xmpp_section : gmap pystr pystr :=
  {[ py "server" := py "xmpp.example.org"; py "port" := py "5222";
     py "nick" := py "fishroom"; py "jid" := py "bot@example.org";
     py "password" := py "secret" ]}.

End Ex.

(** ** [fishroom/fishroom.py]: the handles of [main] *)

(** Statements that may raise, in sequence. *)
#[global] Instance result_ret : MRet result := λ A a, Ok a.

#[global] Instance result_bind : MBind result := λ A B f r,
  match r with
  | Ok a => f a
  | Raise e => Raise e
  end.

(** [[f(x) for x in l]]: left to right, up to the first element that
    raises. *)
Fixpoint collect {A B} (f : A → result B) (l : list A) : result (list B) :=
  match l with
  | [] => Ok []
  | x :: rest =>
      match f x with
      | Ok y =>
          match collect f rest with
          | Ok ys => Ok (y :: ys)
          | Raise e => Raise e
          end
      | Raise e => Raise e
      end
  end.

(** [[b[key] for _, b in config['bindings'].items()]]. *)
Definition column (E : Env) (key : pystr) : result (list pystr) :=
  collect (λ row : pystr * binding, getitem row.2 key) (config_bindings E).

Section Handles.

(** The values of the [irc] and [xmpp] sections of the configuration;
    [main] only passes them on. *)
Context {V : Type}.

(** [config[name][k]], for a section that may be missing. *)
Definition section_get (name : pystr) (sect : option (gmap pystr V))
    (k : pystr) : result V :=
  match sect with
  | None => Raise (KeyError name)
  | Some d =>
      match d !! k with
      | Some v => Ok v
      | None => Raise (KeyError k)
      end
  end.

(** The arguments of [IRCHandle(...)] and [XMPPHandle(...)], in the order
    of the two constructors. *)
Record IRCHandle := mkIRCHandle {
  irc_server : V;
  irc_port : V;
  irc_usessl : V;
  irc_nickname : V;
  irc_channels : list pystr;
  irc_blacklist : V;
}.

Record XMPPHandle := mkXMPPHandle {
  xmpp_server : V;
  xmpp_port : V;
  xmpp_jid : V;
  xmpp_password : V;
  xmpp_rooms : list pystr;
  xmpp_nickname : V;
}.

(** [init_irc()]: the IRC column of the table, then the five settings. *)
Definition init_irc (E : Env) (irc : option (gmap pystr V))
    : result IRCHandle :=
  irc_channels ← column E (py "irc");
  server ← section_get (py "irc") irc (py "server");
  port ← section_get (py "irc") irc (py "port");
  nickname ← section_get (py "irc") irc (py "nick");
  usessl ← section_get (py "irc") irc (py "ssl");
  blacklist ← section_get (py "irc") irc (py "blacklist");
  mret (mkIRCHandle server port usessl nickname irc_channels blacklist).

(** [init_xmpp()]. *)
Definition init_xmpp (E : Env) (xmpp : option (gmap pystr V))
    : result XMPPHandle :=
  rooms ← column E (py "xmpp");
  server ← section_get (py "xmpp") xmpp (py "server");
  port ← section_get (py "xmpp") xmpp (py "port");
  nickname ← section_get (py "xmpp") xmpp (py "nick");
  jid ← section_get (py "xmpp") xmpp (py "jid");
  password ← section_get (py "xmpp") xmpp (py "password");
  mret (mkXMPPHandle server port jid password rooms nickname).

End Handles.

Arguments IRCHandle : clear implicits.
Arguments XMPPHandle : clear implicits.

(** The row of the table has an address for the network, and it is not
    the receiver of the message. *)
Definition passes_by (E : Env) (msg : Message) (row : pystr * binding)
    : Prop :=
  ∃ addr, row.2 !! str_lower E (channel msg) = Some addr
          ∧ receiver msg ≠ addr.

(** * Properties *)

(** ** Strings *)

Module PyStrFacts.

Lemma count_count_occ ch s : count ch s = count_occ N.eq_dec s ch.
Proof.
  induction s as [|x s IH]; simpl; [done|].
  destruct (decide (x = ch)) as [->|Hne].
  - destruct (N.eq_dec ch ch); [by rewrite IH | done].
  - destruct (N.eq_dec x ch); [done | apply IH].
Qed.

Lemma split_nonempty sep s : split sep s ≠ [].
Proof.
  destruct s as [|x s]; simpl; [done|].
  destruct (decide (x = sep)); [done|].
  by destruct (split sep s).
Qed.

(** Splitting loses nothing but the separators. *)
Lemma join_split sep s : join sep (split sep s) = s.
Proof.
  induction s as [|x s IH]; simpl; [done|].
  destruct (decide (x = sep)) as [->|Hne].
  - pose proof (split_nonempty sep s) as Hn.
    simpl. destruct (split sep s) as [|f fs] eqn:Hs; [done|].
    simpl in *. by rewrite IH.
  - destruct (split sep s) as [|f fs] eqn:Hs.
    + by destruct (split_nonempty sep s).
    + simpl in *. destruct fs; simpl in *; by rewrite <- IH.
Qed.

(** There is one field more than there are separators. *)
Lemma length_split sep s : length (split sep s) = S (count sep s).
Proof.
  induction s as [|x s IH]; simpl; [done|].
  destruct (decide (x = sep)); simpl; [by rewrite IH|].
  destruct (split sep s) eqn:Hs; simpl in *; [done | by rewrite <- IH].
Qed.

(** No field holds a separator. *)
Lemma split_no_sep sep s field : field ∈ split sep s → sep ∉ field.
Proof.
  revert field. induction s as [|x s IH]; simpl; intros field Hin.
  - apply list_elem_of_singleton in Hin as ->. apply not_elem_of_nil.
  - destruct (decide (x = sep)) as [->|Hne].
    + apply elem_of_cons in Hin as [->|Hin]; [apply not_elem_of_nil | by apply IH].
    + destruct (split sep s) as [|f fs] eqn:Hs.
      * apply list_elem_of_singleton in Hin as ->.
        intros Hsep. apply list_elem_of_singleton in Hsep. congruence.
      * apply elem_of_cons in Hin as [->|Hin].
        -- intros Hsep. apply elem_of_cons in Hsep as [?|Hsep]; [congruence|].
           revert Hsep. apply IH. apply elem_of_cons; by left.
        -- apply IH. apply elem_of_cons; by right.
Qed.

(** [match_blank] holds of the lines made of whitespace only. *)
Lemma match_blank_spec line :
  match_blank line = true ↔ Forall (λ ch, isspace ch = true) line.
Proof.
  unfold match_blank. rewrite forallb_forall, Forall_forall.
  split; intros H x Hx; apply H; by apply list_elem_of_In.
Qed.

End PyStrFacts.

(** ** The effect monad *)

Lemma bind_ret {A B} (a : A) (k : A → eff B) : (mret a ≫= k) = k a.
Proof. unfold mret, mbind, eff_ret, eff_bind. by destruct (k a). Qed.

Lemma bind_emit {B} (e : event) (k : unit → eff B) :
  (emit e ≫= k) = (e :: (k tt).1, (k tt).2).
Proof. unfold emit, mbind, eff_bind. by destruct (k tt). Qed.

Lemma bind_lift_ok {A B} (a : A) (k : A → eff B) : (lift (Ok a) ≫= k) = k a.
Proof. unfold lift, mbind, eff_bind. by destruct (k a). Qed.

Lemma bind_lift_raise {A B} (e : exn) (k : A → eff B) :
  (lift (Raise e) ≫= k) = ([], Raise e).
Proof. done. Qed.

Lemma bind_ok {A B} (tr : list event) (a : A) (k : A → eff B) :
  ((tr, Ok a) ≫= k) = (tr ++ (k a).1, (k a).2).
Proof. unfold mbind, eff_bind. by destruct (k a). Qed.

Lemma bind_raise {A B} (tr : list event) (e : exn) (k : A → eff B) :
  ((tr, Raise e) ≫= k) = (tr, Raise e).
Proof. done. Qed.

Lemma fst_emit (e : event) : (emit e).1 = [e].
Proof. done. Qed.

Lemma snd_emit (e : event) : (emit e).2 = Ok tt.
Proof. done. Qed.

Lemma fst_ret {A} (a : A) : (mret a : eff A).1 = [].
Proof. done. Qed.

Lemma snd_ret {A} (a : A) : (mret a : eff A).2 = Ok a.
Proof. done. Qed.

Lemma for_each_emit {A} (l : list A) (f : A → event) :
  for_each l (λ x, emit (f x)) = (List.map f l, Ok tt).
Proof.
  induction l as [|x l IH]; cbn [for_each List.map]; [done|].
  by rewrite bind_emit, IH.
Qed.

Ltac run :=
  repeat (first
    [ rewrite bind_lift_ok | rewrite bind_lift_raise | rewrite bind_emit
    | rewrite bind_ret | rewrite for_each_emit | rewrite bind_ok
    | rewrite bind_raise | rewrite fst_emit | rewrite snd_emit
    | rewrite fst_ret | rewrite snd_ret ]; cbn beta iota; cbn [fst snd app]).

(** ** The engine *)

Section EngineFacts.

Context (E : Env) (channels : list Adapter) (text_store : TextStore).

(** *** Binding resolution *)

Lemma get_binding_from_none items msg :
  Forall (λ row : pystr * binding,
            ∃ addr, row.2 !! str_lower E (channel msg) = Some addr
                    ∧ receiver msg ≠ addr) items →
  get_binding_from E items msg = Ok None.
Proof.
  induction 1 as [|[c b] items (addr & Hb & Hne) _ IH]; simpl; [done|].
  unfold getitem. simpl in Hb. rewrite Hb.
  by destruct (decide (receiver msg = addr)).
Qed.

(** A row that is returned is a row of the table and binds the receiver. *)
Lemma get_binding_from_some items msg c b :
  get_binding_from E items msg = Ok (Some (c, b)) →
  (c, b) ∈ items ∧ b !! str_lower E (channel msg) = Some (receiver msg).
Proof.
  induction items as [|[c' b'] items IH]; simpl; [done|].
  unfold getitem. destruct (b' !! str_lower E (channel msg)) as [addr|] eqn:Hb;
    [|done].
  destruct (decide (receiver msg = addr)) as [->|Hne].
  - intros [= -> ->]. split; [apply elem_of_cons; by left | done].
  - intros H. destruct (IH H) as [Hin ?]. split; [|done].
    apply elem_of_cons; by right.
Qed.

Lemma get_binding_set_mtype msg t :
  get_binding E (set_mtype msg t) = get_binding E msg.
Proof.
  unfold get_binding. induction (config_bindings E) as [|[c b] items IH];
    simpl; [done|].
  by rewrite IH.
Qed.

(** *** Command dispatch *)

(** The command block touches nothing but [mtype]. *)
Lemma dispatch_fields msg :
  let msg' := (dispatch E msg).1 in
  channel msg' = channel msg ∧ sender msg' = sender msg
  ∧ receiver msg' = receiver msg ∧ content msg' = content msg
  ∧ date msg' = date msg ∧ time msg' = time msg
  ∧ media_url msg' = media_url msg.
Proof.
  unfold dispatch. destruct (decide (mtype msg = MessageType.Command)); [|done].
  by destruct (run_command E msg).
Qed.

(** Only [Command] may change, and only into [Text]. *)
Lemma dispatch_mtype msg :
  mtype (dispatch E msg).1 = mtype msg
  ∨ mtype msg = MessageType.Command
    ∧ mtype (dispatch E msg).1 = MessageType.Text.
Proof.
  unfold dispatch. destruct (decide (mtype msg = MessageType.Command)); [|by left].
  destruct (run_command E msg); [by left | by right].
Qed.

Lemma dispatch_not_event msg :
  mtype msg ≠ MessageType.Event → mtype (dispatch E msg).1 ≠ MessageType.Event.
Proof.
  intros Hne. destruct (dispatch_mtype msg) as [->|[_ ->]]; [done|].
  by vm_compute.
Qed.

(** A message that is no command goes through unchanged, with no reply. *)
Lemma dispatch_other msg :
  mtype msg ≠ MessageType.Command → dispatch E msg = (msg, Some []).
Proof. intros Hne. unfold dispatch. by destruct (decide _). Qed.

(** A reply that counts comes from a command that stayed a command. *)
Lemma dispatch_truthy msg :
  truthy (dispatch E msg).2 = true →
  (dispatch E msg).1 = msg ∧ mtype msg = MessageType.Command.
Proof.
  unfold dispatch. destruct (decide (mtype msg = MessageType.Command)); [|done].
  by destruct (run_command E msg).
Qed.

(** *** The two loops over [channels] *)

Lemma send_event_bound b msg :
  binds E b channels →
  send_event E channels b msg
  = (List.map (λ c, SendMsg c (address E b c) (content msg)) channels, Ok tt).
Proof.
  unfold send_event, binds.
  induction 1 as [|c cs [addr Hc] _ IH]; cbn [for_each List.map]; [done|].
  rewrite IH. unfold getitem, address. rewrite Hc. by run.
Qed.

Lemma send_contents_bound b msg contents send_back bot_reply :
  binds E b channels →
  send_contents E channels b msg contents send_back bot_reply
  = (flat_map (adapter_sends E b msg contents send_back bot_reply) channels,
     Ok tt).
Proof.
  unfold send_contents, binds.
  induction 1 as [|c cs [addr Hc] _ IH]; cbn [for_each flat_map]; [done|].
  rewrite IH. unfold getitem, adapter_sends, address. rewrite Hc. run.
  destruct (bool_decide (ChanTag c ≠ channel msg) || send_back);
    destruct (truthy bot_reply); run; unfold address;
    by rewrite <- ?app_assoc, ?app_nil_r.
Qed.

(** Whatever the rows bind, a loop with no reply only sends formatted
    lines of [contents]. *)
Lemma send_contents_no_reply b msg contents send_back a target text :
  SendMsg a target text
    ∈ (send_contents E channels b msg contents send_back (Some [])).1 →
  ∃ line, line ∈ contents ∧ text = msg_tmpl (sender msg) line.
Proof.
  unfold send_contents. induction channels as [|c cs IH]; cbn [for_each].
  - intros H. by apply not_elem_of_nil in H.
  - unfold getitem. destruct (b !! str_lower E (ChanTag c)) as [addr|].
    + cbn [truthy]. run.
      destruct (bool_decide (ChanTag c ≠ channel msg) || send_back); run.
      * rewrite app_nil_r.
        intros [Hin|Hin]%elem_of_app; [|by apply IH].
        apply list_elem_of_In, in_map_iff in Hin as (line & [= _ _ <-] & Hin).
        exists line. split; [by apply list_elem_of_In | done].
      * apply IH.
    + run. intros H. by apply not_elem_of_nil in H.
Qed.

(** Either loop only ever calls [send_msg]. *)
Lemma send_contents_only_sends b msg contents send_back bot_reply :
  Forall (λ ev, is_send ev = true)
         (send_contents E channels b msg contents send_back bot_reply).1.
Proof.
  unfold send_contents. induction channels as [|c cs IH]; cbn [for_each].
  - by run.
  - unfold getitem. destruct (b !! str_lower E (ChanTag c)) as [addr|];
      [|by run].
    destruct (bool_decide (ChanTag c ≠ channel msg) || send_back);
      destruct (truthy bot_reply); run; rewrite ?Forall_app, ?Forall_cons;
      repeat split; try apply IH; try done;
      by apply Forall_forall; intros ev (? & <- & _)%list_elem_of_In%in_map_iff.
Qed.

Lemma adapter_sends_only_sends b msg contents send_back bot_reply :
  Forall (λ ev, is_send ev = true)
         (flat_map (adapter_sends E b msg contents send_back bot_reply)
                   channels).
Proof.
  apply Forall_forall. intros ev Hin.
  apply list_elem_of_In, in_flat_map in Hin as (a & _ & Hin).
  unfold adapter_sends in Hin.
  apply in_app_or in Hin as [Hin|Hin].
  - destruct (_ || _); [|done]. by apply in_map_iff in Hin as (? & <- & _).
  - destruct (truthy bot_reply); [|done]. by destruct Hin as [<-|[]].
Qed.

Lemma filter_keeps_all {A} (f : A → bool) (l : list A) :
  Forall (λ x, f x = true) l → List.filter f l = l.
Proof. induction 1 as [|x l Hx _ IH]; simpl; [done|]. by rewrite Hx, IH. Qed.

Lemma filter_drops_all {A} (f : A → bool) (l : list A) :
  Forall (λ x, f x = false) l → List.filter f l = [].
Proof. induction 1 as [|x l Hx _ IH]; simpl; [done|]. by rewrite Hx. Qed.

Lemma log_calls_only_logs c msg bot_reply :
  Forall (λ ev, is_log ev = true) (log_calls E c msg bot_reply).
Proof. unfold log_calls. destruct (truthy bot_reply); by repeat constructor. Qed.

(** *** The overflow condition *)

Lemma overflows_oversized text bytes :
  utf8_encode text = Some bytes →
  overflows text = Ok (bool_decide (oversized text bytes)).
Proof.
  intros Henc. unfold overflows, oversized.
  rewrite <- PyStrFacts.count_count_occ, Henc.
  destruct (decide (5 < count NL text)%nat) as [Hc|Hc].
  - by rewrite bool_decide_eq_true_2; [|left].
  - f_equal. apply bool_decide_ext. tauto.
Qed.

(** *** One turn of the loop, case by case *)

(** A routed message: the diagnostic line, then [relay] on what the
    command block leaves. *)
Lemma forward_routed msg c b bytes :
  get_binding E msg = Ok (Some (c, b)) →
  utf8_encode (content msg) = Some bytes →
  forward E channels text_store msg
  = (Print (DiagMsg msg (Some c) (length bytes))
       :: (relay E channels text_store c b
                 (dispatch E msg).1 (dispatch E msg).2).1,
     (relay E channels text_store c b
            (dispatch E msg).1 (dispatch E msg).2).2).
Proof.
  intros Hb Henc. unfold forward. rewrite Hb, Henc. run.
  by destruct (dispatch E msg).
Qed.

Lemma relay_event c b msg bot_reply :
  mtype msg = MessageType.Event →
  binds E b channels →
  relay E channels text_store c b msg bot_reply
  = (log_calls E c msg bot_reply
       ++ List.map (λ a, SendMsg a (address E b a) (content msg)) channels,
     Ok tt).
Proof.
  intros Hev Hbinds. unfold relay, log_calls. run.
  destruct (decide (mtype msg = MessageType.Event)); [|done].
  rewrite (send_event_bound b msg Hbinds).
  destruct (truthy bot_reply); by run.
Qed.

Lemma relay_inline c b msg bot_reply bytes :
  mtype msg ≠ MessageType.Event →
  utf8_encode (content msg) = Some bytes →
  ¬ oversized (content msg) bytes →
  relay E channels text_store c b msg bot_reply
  = (log_calls E c msg bot_reply
       ++ (send_contents E channels b msg (inline_contents (content msg))
                         false bot_reply).1,
     (send_contents E channels b msg (inline_contents (content msg))
                    false bot_reply).2).
Proof.
  intros Hev Henc Hsmall. unfold relay, log_calls, overflow_policy. run.
  destruct (decide (mtype msg = MessageType.Event)); [done|].
  rewrite (overflows_oversized _ _ Henc), bool_decide_eq_false_2 by done.
  destruct (truthy bot_reply); by run.
Qed.

Lemma relay_paste c b msg bot_reply bytes text_url :
  mtype msg ≠ MessageType.Event →
  utf8_encode (content msg) = Some bytes →
  oversized (content msg) bytes →
  new_paste text_store (content msg) (sender msg) c (date msg) (time msg)
            (chat_logger_log E c msg) = Some text_url →
  relay E channels text_store c b msg bot_reply
  = (log_calls E c msg bot_reply
       ++ NewPaste (content msg) (sender msg) c (date msg) (time msg)
                   (chat_logger_log E c msg)
       :: (send_contents E channels b msg [text_url ++ py " (long text)"]
                         true bot_reply).1,
     (send_contents E channels b msg [text_url ++ py " (long text)"]
                    true bot_reply).2).
Proof.
  intros Hev Henc Hbig Hurl. unfold relay, log_calls, overflow_policy. run.
  destruct (decide (mtype msg = MessageType.Event)); [done|].
  rewrite (overflows_oversized _ _ Henc), bool_decide_eq_true_2 by done.
  run. rewrite Hurl. destruct (truthy bot_reply); by run.
Qed.

Lemma relay_paste_failed c b msg bot_reply bytes :
  mtype msg ≠ MessageType.Event →
  utf8_encode (content msg) = Some bytes →
  oversized (content msg) bytes →
  new_paste text_store (content msg) (sender msg) c (date msg) (time msg)
            (chat_logger_log E c msg) = None →
  relay E channels text_store c b msg bot_reply
  = (log_calls E c msg bot_reply
       ++ [NewPaste (content msg) (sender msg) c (date msg) (time msg)
                    (chat_logger_log E c msg);
           Print DiagPasteFailed],
     Ok tt).
Proof.
  intros Hev Henc Hbig Hurl. unfold relay, log_calls, overflow_policy. run.
  destruct (decide (mtype msg = MessageType.Event)); [done|].
  rewrite (overflows_oversized _ _ Henc), bool_decide_eq_true_2 by done.
  run. rewrite Hurl. destruct (truthy bot_reply); by run.
Qed.

(** After the log calls, a turn makes no further one. *)
Lemma relay_logs_once c b msg bot_reply :
  List.filter is_log (relay E channels text_store c b msg bot_reply).1
  = log_calls E c msg bot_reply.
Proof.
  assert (Hnil : ∀ l, Forall (λ ev, is_send ev = true) l →
                      List.filter is_log l = []).
  { intros l Hl. apply filter_drops_all.
    eapply Forall_impl; [exact Hl|]. by intros []. }
  assert (Hlogs : ∀ rest, List.filter is_log rest = [] →
            List.filter is_log (log_calls E c msg bot_reply ++ rest)
            = log_calls E c msg bot_reply).
  { intros rest Hrest. rewrite List.filter_app, Hrest, app_nil_r.
    apply filter_keeps_all, log_calls_only_logs. }
  unfold relay.
  set (tail := if decide (mtype msg = MessageType.Event) then _ else _).
  assert (Htail : List.filter is_log tail.1 = []).
  { subst tail. destruct (decide (mtype msg = MessageType.Event)).
    - apply Hnil. unfold send_event.
      induction channels as [|a cs IH]; cbn [for_each]; [by run|].
      unfold getitem. destruct (b !! str_lower E (ChanTag a)); run;
        [|done]. by constructor.
    - unfold overflow_policy.
      destruct (overflows (content msg)) as [[]|]; run; [| |done].
      + destruct (new_paste _ _ _ _ _ _ _); run; [|done].
        cbn [List.filter is_log]. apply Hnil, send_contents_only_sends.
      + apply Hnil, send_contents_only_sends. }
  rewrite <- (Hlogs _ Htail). unfold log_calls. run.
  destruct (truthy bot_reply); by run.
Qed.

Lemma reply_in_adapter_sends b msg contents send_back bot_reply a :
  truthy bot_reply = true → a ∈ channels →
  SendMsg a (address E b a) (str_of bot_reply)
    ∈ flat_map (adapter_sends E b msg contents send_back bot_reply) channels.
Proof.
  intros Htr Ha. apply list_elem_of_In, in_flat_map. exists a.
  split; [by apply list_elem_of_In|].
  unfold adapter_sends. rewrite Htr. apply in_or_app; right. by left.
Qed.

Lemma run_command_raises msg e :
  run_command E msg = Raise e ↔ command_raises E msg e.
Proof.
  unfold run_command, command_raises.
  destruct (parse_command E (content msg)) as [[cmd args]|e'].
  - destruct (get_command_handler E cmd) as [[handler|]|e''] eqn:Hh.
    + split.
      * intros H. right; right. by exists cmd, args, handler.
      * intros [?|[(? & ? & Hp & ?)|(? & ? & ? & Hp & Hl & ?)]];
          simplify_eq; congruence.
    + split; [done|].
      intros [?|[(? & ? & Hp & ?)|(? & ? & ? & Hp & Hl & ?)]];
        simplify_eq; congruence.
    + split.
      * intros [= ->]. right; left. by exists cmd, args.
      * intros [?|[(? & ? & Hp & ?)|(? & ? & ? & Hp & Hl & ?)]];
          simplify_eq; congruence.
  - split; [intros [= ->]; by left|].
    intros [?|[(? & ? & ? & _)|(? & ? & ? & ? & _)]]; congruence.
Qed.

(** The loop goes on after a turn that returns. *)
Lemma ForwardingThread_next msg rest tr :
  forward E channels text_store msg = (tr, Ok tt) →
  ForwardingThread E channels text_store (msg :: rest)
  = (tr ++ (ForwardingThread E channels text_store rest).1,
     (ForwardingThread E channels text_store rest).2).
Proof. intros H. cbn [ForwardingThread]. rewrite H. by run. Qed.

End EngineFacts.

(** ** The properties of the design *)

Section Claims.

Context (E : Env) (channels : list Adapter) (text_store : TextStore).

(** C1, as the engine has it: a routed message with [mtype == Event] is
    logged, and then its content is sent verbatim, once, to the bound
    address of every adapter in the order of [channels], the adapter of the
    origin network included. *)
Theorem event_reaches_every_adapter msg c b bytes :
  mtype msg = MessageType.Event →
  get_binding E msg = Ok (Some (c, b)) →
  utf8_encode (content msg) = Some bytes →
  binds E b channels →
  forward E channels text_store msg
  = (Print (DiagMsg msg (Some c) (length bytes))
       :: ChatLog c msg
       :: List.map (λ a, SendMsg a (address E b a) (content msg)) channels,
     Ok tt).
Proof.
  intros Hev Hb Henc Hbinds.
  rewrite (forward_routed E channels text_store msg c b bytes Hb Henc).
  rewrite dispatch_other by (rewrite Hev; by vm_compute).
  cbn [fst snd]. by rewrite relay_event.
Qed.

(** C4: a message that matches no row of the binding table only leaves
    the diagnostic line: no send, no log call, no call of the text store;
    the turn returns and the loop goes on with the next message. *)
Theorem unroutable_dropped msg bytes rest :
  no_row_matches E msg →
  utf8_encode (content msg) = Some bytes →
  get_binding E msg = Ok None
  ∧ forward E channels text_store msg
    = ([Print (DiagMsg msg None (length bytes))], Ok tt)
  ∧ List.filter (λ ev, is_send ev || is_log ev || is_paste ev)
                (forward E channels text_store msg).1 = []
  ∧ ForwardingThread E channels text_store (msg :: rest)
    = (Print (DiagMsg msg None (length bytes))
         :: (ForwardingThread E channels text_store rest).1,
       (ForwardingThread E channels text_store rest).2).
Proof.
  intros Hno Henc.
  assert (Hb : get_binding E msg = Ok None)
    by by apply get_binding_from_none.
  assert (Hfw : forward E channels text_store msg
                = ([Print (DiagMsg msg None (length bytes))], Ok tt)).
  { unfold forward. rewrite Hb, Henc. by run. }
  repeat split; [done | done | by rewrite Hfw |].
  by rewrite (ForwardingThread_next E channels text_store msg rest _ Hfw).
Qed.

(** C3: for a routed message that is no event, the overflow policy fires,
    that is the text store is asked for a paste, if and only if the
    content holds more than 5 newline characters or its UTF-8 encoding is
    at least 400 bytes long. *)
Theorem overflow_fires_iff msg c b bytes :
  get_binding E msg = Ok (Some (c, b)) →
  utf8_encode (content msg) = Some bytes →
  mtype msg ≠ MessageType.Event →
  overflows (content msg) = Ok (bool_decide (oversized (content msg) bytes))
  ∧ ((∃ ev, ev ∈ (forward E channels text_store msg).1 ∧ is_paste ev = true)
     ↔ oversized (content msg) bytes).
Proof.
  intros Hb Henc Hev. split; [by apply overflows_oversized|].
  rewrite (forward_routed E channels text_store msg c b bytes Hb Henc).
  cbn [fst].
  pose proof (dispatch_not_event E msg Hev) as Hev'.
  destruct (dispatch_fields E msg) as (_ & Hs & _ & Hc & Hd & Ht & _).
  set (msg' := (dispatch E msg).1) in *.
  set (bot_reply := (dispatch E msg).2) in *.
  rewrite <- Hc in Henc |- *.
  split.
  - intros (ev & Hin & Hp).
    destruct (decide (oversized (content msg') bytes)) as [|Hsmall]; [done|].
    exfalso. rewrite (relay_inline E channels text_store c b msg' bot_reply
                                   bytes Hev' Henc Hsmall) in Hin.
    cbn [fst] in Hin.
    apply elem_of_cons in Hin as [->|Hin]; [done|].
    apply elem_of_app in Hin as [Hin|Hin].
    + pose proof (log_calls_only_logs E c msg' bot_reply) as Hl.
      rewrite Forall_forall in Hl. apply Hl in Hin. by destruct ev.
    + pose proof (send_contents_only_sends E channels b msg'
                    (inline_contents (content msg')) false bot_reply) as Hl.
      rewrite Forall_forall in Hl. apply Hl in Hin. by destruct ev.
  - intros Hbig.
    exists (NewPaste (content msg') (sender msg') c (date msg') (time msg')
                     (chat_logger_log E c msg')).
    split; [|done].
    apply elem_of_cons; right.
    destruct (new_paste text_store (content msg') (sender msg') c (date msg')
                (time msg') (chat_logger_log E c msg')) as [url|] eqn:Hurl.
    + rewrite (relay_paste E channels text_store c b msg' bot_reply bytes url
                           Hev' Henc Hbig Hurl).
      cbn [fst]. apply elem_of_app; right. apply elem_of_cons; by left.
    + rewrite (relay_paste_failed E channels text_store c b msg' bot_reply
                                  bytes Hev' Henc Hbig Hurl).
      cbn [fst]. apply elem_of_app; right. apply elem_of_cons; by left.
Qed.

(** C2: when a routed message that is no event is oversized and the text
    store returns a URL, the relayed content is the one line
    ["<url> (long text)"] with [send_back] true, and every adapter, that of
    the origin network included, is sent ["[sender] <url> (long text)"]
    once at its bound address (followed by the reply of the command block,
    if there is one); nothing else is sent. *)
Theorem overflow_link_to_every_adapter msg c b bytes text_url :
  get_binding E msg = Ok (Some (c, b)) →
  utf8_encode (content msg) = Some bytes →
  mtype msg ≠ MessageType.Event →
  oversized (content msg) bytes →
  new_paste text_store (content msg) (sender msg) c (date msg) (time msg)
            (chat_logger_log E c (dispatch E msg).1) = Some text_url →
  binds E b channels →
  let line := text_url ++ py " (long text)" in
  let bot_reply := (dispatch E msg).2 in
  (overflow_policy text_store c (dispatch E msg).1
                   (chat_logger_log E c (dispatch E msg).1)).2
  = Ok (Some ([line], true))
  ∧ List.filter is_send (forward E channels text_store msg).1
    = flat_map (λ a,
        SendMsg a (address E b a) (py "[" ++ sender msg ++ py "] " ++ line)
        :: (if truthy bot_reply
            then [SendMsg a (address E b a) (str_of bot_reply)] else []))
        channels
  ∧ (∀ a, a ∈ channels →
       SendMsg a (address E b a) (py "[" ++ sender msg ++ py "] " ++ line)
         ∈ (forward E channels text_store msg).1)
  ∧ (forward E channels text_store msg).2 = Ok tt.
Proof.
  intros Hb Henc Hev Hbig Hurl Hbinds line bot_reply. subst line bot_reply.
  rewrite (forward_routed E channels text_store msg c b bytes Hb Henc).
  pose proof (dispatch_not_event E msg Hev) as Hev'.
  destruct (dispatch_fields E msg) as (Hch & Hs & _ & Hc & Hd & Ht & _).
  set (bot_reply := (dispatch E msg).2) in *.
  set (msg' := (dispatch E msg).1) in *.
  rewrite <- Hc, <- Hs, <- Hd, <- Ht in *.
  rewrite (relay_paste E channels text_store c b msg' bot_reply bytes text_url
                       Hev' Henc Hbig Hurl).
  rewrite (send_contents_bound E channels b msg' _ true bot_reply Hbinds).
  cbn [fst snd]. set (line := text_url ++ py " (long text)").
  assert (Hsends : flat_map (adapter_sends E b msg' [line] true bot_reply)
                            channels
                   = flat_map (λ a,
                       SendMsg a (address E b a)
                               (py "[" ++ sender msg' ++ py "] " ++ line)
                       :: (if truthy bot_reply
                           then [SendMsg a (address E b a) (str_of bot_reply)]
                           else [])) channels).
  { apply flat_map_ext. intros a. unfold adapter_sends.
    by rewrite orb_true_r. }
  repeat split.
  - unfold overflow_policy.
    rewrite (overflows_oversized _ _ Henc), bool_decide_eq_true_2 by done.
    run. rewrite Hurl. by run.
  - rewrite <- Hsends. cbn [List.filter is_send].
    rewrite List.filter_app. cbn [List.filter is_send].
    rewrite filter_drops_all, filter_keeps_all; [done| |].
    + apply adapter_sends_only_sends.
    + eapply Forall_impl; [apply log_calls_only_logs|]. by intros [].
  - intros a Ha. apply elem_of_cons; right. apply elem_of_app; right.
    apply elem_of_cons; right. rewrite Hsends.
    apply list_elem_of_In, in_flat_map. exists a.
    split; [by apply list_elem_of_In | by left].
Qed.

(** C7: when a routed message that is no event is oversized and the text
    store returns no URL, nothing is sent to any adapter; the failure only
    shows in the diagnostic output, the turn returns and the loop goes on
    with the next message. *)
Theorem overflow_failure_drops_relay msg c b bytes rest :
  get_binding E msg = Ok (Some (c, b)) →
  utf8_encode (content msg) = Some bytes →
  mtype msg ≠ MessageType.Event →
  oversized (content msg) bytes →
  new_paste text_store (content msg) (sender msg) c (date msg) (time msg)
            (chat_logger_log E c (dispatch E msg).1) = None →
  List.filter is_send (forward E channels text_store msg).1 = []
  ∧ last (forward E channels text_store msg).1 = Some (Print DiagPasteFailed)
  ∧ (forward E channels text_store msg).2 = Ok tt
  ∧ ForwardingThread E channels text_store (msg :: rest)
    = ((forward E channels text_store msg).1
         ++ (ForwardingThread E channels text_store rest).1,
       (ForwardingThread E channels text_store rest).2).
Proof.
  intros Hb Henc Hev Hbig Hurl.
  pose proof (dispatch_not_event E msg Hev) as Hev'.
  destruct (dispatch_fields E msg) as (Hch & Hs & _ & Hc & Hd & Ht & _).
  assert (Hfw : forward E channels text_store msg
    = (Print (DiagMsg msg (Some c) (length bytes))
         :: log_calls E c (dispatch E msg).1 (dispatch E msg).2
         ++ [NewPaste (content msg) (sender msg) c (date msg) (time msg)
                      (chat_logger_log E c (dispatch E msg).1);
             Print DiagPasteFailed],
       Ok tt)).
  { rewrite (forward_routed E channels text_store msg c b bytes Hb Henc).
    rewrite <- Hc, <- Hs, <- Hd, <- Ht in *.
    by rewrite (relay_paste_failed E channels text_store c b _ _ bytes
                                   Hev' Henc Hbig Hurl). }
  repeat split.
  - rewrite Hfw. cbn [fst List.filter is_send]. rewrite List.filter_app.
    rewrite filter_drops_all; [done|].
    eapply Forall_impl; [apply log_calls_only_logs|]. by intros [].
  - rewrite Hfw. cbn [fst]. unfold log_calls.
    by destruct (truthy (dispatch E msg).2).
  - by rewrite Hfw.
  - apply ForwardingThread_next. rewrite Hfw at 1. by rewrite Hfw.
Qed.

(** C10: in that same case the message has been logged before it is
    dropped: the log calls of the turn are the one for the message, then
    the one for the reply of the command block if there is one; the call
    for the message is the only one of its kind and comes before the text
    store is asked.  An unroutable message leaves no log call. *)
Theorem overflow_failure_keeps_log msg c b bytes :
  get_binding E msg = Ok (Some (c, b)) →
  utf8_encode (content msg) = Some bytes →
  mtype msg ≠ MessageType.Event →
  oversized (content msg) bytes →
  new_paste text_store (content msg) (sender msg) c (date msg) (time msg)
            (chat_logger_log E c (dispatch E msg).1) = None →
  let msg' := (dispatch E msg).1 in
  forward E channels text_store msg
  = (Print (DiagMsg msg (Some c) (length bytes))
       :: log_calls E c msg' (dispatch E msg).2
       ++ [NewPaste (content msg) (sender msg) c (date msg) (time msg)
                    (chat_logger_log E c msg');
           Print DiagPasteFailed],
     Ok tt)
  ∧ List.filter is_log (forward E channels text_store msg).1
    = log_calls E c msg' (dispatch E msg).2
  ∧ length (List.filter (λ ev, bool_decide (ev = ChatLog c msg'))
                        (forward E channels text_store msg).1) = 1%nat
  ∧ List.filter is_send (forward E channels text_store msg).1 = [].
Proof.
  intros Hb Henc Hev Hbig Hurl msg'.
  pose proof (dispatch_not_event E msg Hev) as Hev'.
  destruct (dispatch_fields E msg) as (Hch & Hs & _ & Hc & Hd & Ht & _).
  assert (Hfw : forward E channels text_store msg
    = (Print (DiagMsg msg (Some c) (length bytes))
         :: log_calls E c msg' (dispatch E msg).2
         ++ [NewPaste (content msg) (sender msg) c (date msg) (time msg)
                      (chat_logger_log E c msg');
             Print DiagPasteFailed],
       Ok tt)).
  { rewrite (forward_routed E channels text_store msg c b bytes Hb Henc).
    subst msg'. rewrite <- Hc, <- Hs, <- Hd, <- Ht in *.
    by rewrite (relay_paste_failed E channels text_store c b _ _ bytes
                                   Hev' Henc Hbig Hurl). }
  rewrite Hfw. cbn [fst]. repeat split.
  - cbn [List.filter is_log]. rewrite List.filter_app.
    rewrite filter_keeps_all by apply log_calls_only_logs.
    cbn [List.filter is_log]. by rewrite app_nil_r.
  - unfold log_calls.
    destruct (truthy (dispatch E msg).2) eqn:Htr; simpl;
      rewrite bool_decide_eq_true_2 by done; [|done].
    rewrite bool_decide_eq_false_2; [done|].
    intros [= Heq]. apply dispatch_truthy in Htr as [Hsame Hcmd].
    assert (Hm : mtype msg' = MessageType.Text) by by rewrite <- Heq.
    unfold msg' in Hm. rewrite Hsame, Hcmd in Hm. by vm_compute in Hm.
  - cbn [List.filter is_send]. rewrite List.filter_app.
    rewrite filter_drops_all; [done|].
    eapply Forall_impl; [apply log_calls_only_logs|]. by intros [].
Qed.

(** C5, as the engine has it: when the command block of a routed message
    leaves a non-empty reply, the reply is logged, right after the message,
    as a message of the bot identity to the same receiver; and unless the
    message is oversized and the text store returns no URL, the reply is
    sent as it is to the bound address of every adapter, that of the
    origin network included. *)
Theorem reply_logged_and_sent msg c b bytes reply :
  get_binding E msg = Ok (Some (c, b)) →
  utf8_encode (content msg) = Some bytes →
  (dispatch E msg).2 = Some reply →
  reply ≠ [] →
  let msg' := (dispatch E msg).1 in
  let synthetic := reply_message E msg' (Some reply) in
  (List.filter is_log (forward E channels text_store msg).1
   = [ChatLog c msg'; ChatLog c synthetic]
   ∧ sender synthetic = bot_name E ∧ content synthetic = reply
   ∧ channel synthetic = channel msg ∧ receiver synthetic = receiver msg)
  ∧ (binds E b channels →
     ¬ oversized (content msg) bytes
     ∨ is_Some (new_paste text_store (content msg) (sender msg) c (date msg)
                          (time msg) (chat_logger_log E c msg')) →
     (∀ a, a ∈ channels →
        SendMsg a (address E b a) reply
          ∈ (forward E channels text_store msg).1)
     ∧ (forward E channels text_store msg).2 = Ok tt).
Proof.
  intros Hb Henc Hreply Hne msg' synthetic. subst msg' synthetic.
  assert (Htr : truthy (dispatch E msg).2 = true).
  { rewrite Hreply. by destruct reply. }
  destruct (dispatch_truthy E msg Htr) as [Hsame Hcmd].
  assert (Hev : mtype msg ≠ MessageType.Event)
    by (rewrite Hcmd; by vm_compute).
  rewrite (forward_routed E channels text_store msg c b bytes Hb Henc).
  rewrite Hsame, Hreply in *. cbn [fst snd]. split.
  - cbn [List.filter is_log]. rewrite relay_logs_once.
    unfold log_calls. by rewrite Htr.
  - intros Hbinds Hok.
    destruct (decide (oversized (content msg) bytes)) as [Hbig|Hsmall].
    + destruct Hok as [?|[url Hurl]]; [done|].
      rewrite (relay_paste E channels text_store c b msg (Some reply) bytes
                           url Hev Henc Hbig Hurl).
      rewrite (send_contents_bound E channels b msg _ true _ Hbinds).
      split; [|done]. intros a Ha. cbn [fst].
      apply elem_of_cons; right. apply elem_of_app; right.
      apply elem_of_cons; right.
      by apply (reply_in_adapter_sends E channels b msg _ true (Some reply)).
    + rewrite (relay_inline E channels text_store c b msg (Some reply) bytes
                            Hev Henc Hsmall).
      rewrite (send_contents_bound E channels b msg _ false _ Hbinds).
      split; [|done]. intros a Ha. cbn [fst].
      apply elem_of_cons; right. apply elem_of_app; right.
      by apply (reply_in_adapter_sends E channels b msg _ false (Some reply)).
Qed.

(** C6: when the command block of a routed [Command] message raises (in
    the parser, in the handler lookup or in the handler), the message
    leaves the block with [mtype] set to [Text], all its other fields as
    they were, and the reply stays empty; from the logging on, the turn is
    the turn of that [Text] message: it is the only message logged, and
    whatever is sent is ["[sender] line"] for a line of its content (or
    for the link of its paste, when it is oversized), never a reply. *)
Theorem failed_command_relayed_as_text msg c b bytes e :
  get_binding E msg = Ok (Some (c, b)) →
  utf8_encode (content msg) = Some bytes →
  mtype msg = MessageType.Command →
  command_raises E msg e →
  let text_msg :=
    mkMessage (channel msg) (sender msg) (receiver msg) (content msg)
              MessageType.Text (date msg) (time msg) (media_url msg) in
  dispatch E msg = (text_msg, Some [])
  ∧ mtype (dispatch E msg).1 = MessageType.Text
  ∧ mtype (dispatch E msg).1 ≠ mtype msg
  ∧ (forward E channels text_store msg).1
    = Print (DiagMsg msg (Some c) (length bytes))
        :: tail (forward E channels text_store text_msg).1
  ∧ (forward E channels text_store msg).2
    = (forward E channels text_store text_msg).2
  ∧ List.filter is_log (forward E channels text_store msg).1
    = [ChatLog c text_msg]
  ∧ (∀ a target text,
       SendMsg a target text ∈ (forward E channels text_store msg).1 →
       ∃ line,
         text = py "[" ++ sender msg ++ py "] " ++ line
         ∧ (line ∈ inline_contents (content msg)
            ∨ ∃ text_url,
                new_paste text_store (content msg) (sender msg) c
                          (date msg) (time msg)
                          (chat_logger_log E c text_msg) = Some text_url
                ∧ line = text_url ++ py " (long text)")).
Proof.
  intros Hb Henc Hcmd Hraise text_msg.
  apply run_command_raises in Hraise.
  assert (Hd : dispatch E msg = (text_msg, Some [])).
  { unfold dispatch. rewrite Hraise. by destruct (decide _). }
  assert (Htext : mtype text_msg ≠ MessageType.Event) by by vm_compute.
  assert (Hfw : forward E channels text_store text_msg
    = (Print (DiagMsg text_msg (Some c) (length bytes))
         :: (relay E channels text_store c b text_msg (Some [])).1,
       (relay E channels text_store c b text_msg (Some [])).2)).
  { rewrite (forward_routed E channels text_store text_msg c b bytes);
      [|change text_msg with (set_mtype msg MessageType.Text);
        by rewrite get_binding_set_mtype|done].
    rewrite dispatch_other; [done | by vm_compute]. }
  rewrite (forward_routed E channels text_store msg c b bytes Hb Henc).
  rewrite Hd, Hfw. cbn [fst snd tail].
  split; [done|]. split; [done|].
  split; [rewrite Hcmd; by vm_compute|].
  split; [done|]. split; [done|]. split.
  - cbn [List.filter is_log]. by rewrite relay_logs_once.
  - intros a target text Hin.
    apply elem_of_cons in Hin as [?|Hin]; [done|].
    change (utf8_encode (content text_msg) = Some bytes) in Henc.
    change (content msg) with (content text_msg).
    change (sender msg) with (sender text_msg).
    change (date msg) with (date text_msg).
    change (time msg) with (time text_msg).
    assert (Hlog : ∀ rest, SendMsg a target text
                     ∈ log_calls E c text_msg (Some []) ++ rest →
                   SendMsg a target text ∈ rest).
    { intros rest [Hl|?]%elem_of_app; [|done].
      apply list_elem_of_singleton in Hl. done. }
    destruct (decide (oversized (content text_msg) bytes)) as [Hbig|Hsmall].
    + destruct (new_paste text_store (content text_msg) (sender text_msg) c
                  (date text_msg) (time text_msg)
                  (chat_logger_log E c text_msg)) as [url|] eqn:Hurl.
      * rewrite (relay_paste E channels text_store c b text_msg _ bytes url
                             Htext Henc Hbig Hurl) in Hin.
        apply Hlog, elem_of_cons in Hin as [?|Hin]; [done|].
        apply send_contents_no_reply in Hin as (line & Hline & ->).
        apply list_elem_of_singleton in Hline as ->.
        eexists. split; [done|]. right. by exists url.
      * rewrite (relay_paste_failed E channels text_store c b text_msg _ bytes
                                    Htext Henc Hbig Hurl) in Hin.
        apply Hlog in Hin. rewrite !elem_of_cons, elem_of_nil in Hin.
        by destruct Hin as [?|[?|[]]].
    + rewrite (relay_inline E channels text_store c b text_msg _ bytes
                            Htext Henc Hsmall) in Hin.
      apply Hlog in Hin.
      apply send_contents_no_reply in Hin as (line & Hline & ->).
      exists line. split; [done | by left].
Qed.

(** C8: a routed message that is no event and is not oversized is relayed
    line by line: its content is split at the newline characters, the
    lines made of whitespace only (the empty line among them) are left
    out, and every line that remains is sent by itself, as
    ["[sender] line"], to the bound address of every adapter whose network
    is not the origin network, and to no other (next to the reply of the
    command block, if there is one, nothing else is sent). *)
Theorem inline_lines_to_other_adapters msg c b bytes :
  get_binding E msg = Ok (Some (c, b)) →
  utf8_encode (content msg) = Some bytes →
  mtype msg ≠ MessageType.Event →
  ¬ oversized (content msg) bytes →
  binds E b channels →
  let contents := inline_contents (content msg) in
  let bot_reply := (dispatch E msg).2 in
  forward E channels text_store msg
  = (Print (DiagMsg msg (Some c) (length bytes))
       :: log_calls E c (dispatch E msg).1 bot_reply
       ++ flat_map (λ a,
            (if bool_decide (ChanTag a ≠ channel msg)
             then List.map (λ line,
                    SendMsg a (address E b a)
                            (py "[" ++ sender msg ++ py "] " ++ line))
                    contents
             else [])
            ++ (if truthy bot_reply
                then [SendMsg a (address E b a) (str_of bot_reply)] else []))
            channels,
     Ok tt)
  ∧ (∀ line, line ∈ contents ↔
       line ∈ split NL (content msg)
       ∧ ¬ Forall (λ ch, isspace ch = true) line)
  ∧ join NL (split NL (content msg)) = content msg
  ∧ (∀ line, line ∈ contents → line ≠ [] ∧ NL ∉ line).
Proof.
  intros Hb Henc Hev Hsmall Hbinds contents bot_reply.
  subst contents bot_reply.
  pose proof (dispatch_not_event E msg Hev) as Hev'.
  destruct (dispatch_fields E msg) as (Hch & Hs & _ & Hc & _).
  assert (Hin : ∀ line, line ∈ inline_contents (content msg) ↔
            line ∈ split NL (content msg)
            ∧ ¬ Forall (λ ch, isspace ch = true) line).
  { intros line. unfold inline_contents.
    rewrite <- PyStrFacts.match_blank_spec, list_elem_of_In, filter_In,
      <- list_elem_of_In, negb_true_iff.
    by rewrite not_true_iff_false. }
  split; [|split; [exact Hin|split; [apply PyStrFacts.join_split|]]].
  - rewrite (forward_routed E channels text_store msg c b bytes Hb Henc).
    rewrite <- Hc, <- Hs, <- Hch in *.
    rewrite (relay_inline E channels text_store c b _ _ bytes Hev' Henc Hsmall).
    rewrite (send_contents_bound E channels b _ _ false _ Hbinds).
    cbn [fst snd]. do 3 f_equal. apply flat_map_ext. intros a.
    unfold adapter_sends. by rewrite orb_false_r.
  - intros line [Hsplit Hblank]%Hin. split.
    + intros ->. apply Hblank. constructor.
    + by apply PyStrFacts.split_no_sep in Hsplit.
Qed.

End Claims.

(** ** The engine at work on the configuration [Ex] *)

(** A text message from IRC goes to the two other networks. *)
Example hi_is_relayed :
  List.filter is_send (forward Ex.env Ex.channels Ex.store_ok Ex.hi).1
  = [SendMsg Ex.tghandle (py "-100123") (py "[alice] hi");
     SendMsg Ex.xmpphandle (py "room@conf") (py "[alice] hi")].
Proof. by vm_compute. Qed.

(** 401 bytes of ["x"] are pasted, and the link goes to all three. *)
Example long_is_pasted :
  List.filter is_send (forward Ex.env Ex.channels Ex.store_ok Ex.long).1
  = [SendMsg Ex.tghandle (py "-100123") (py "[alice] http://p/1 (long text)");
     SendMsg Ex.irchandle (py "#a") (py "[alice] http://p/1 (long text)");
     SendMsg Ex.xmpphandle (py "room@conf")
             (py "[alice] http://p/1 (long text)")].
Proof. by vm_compute. Qed.

(** ["!ping"] is relayed to the others and answered to all three. *)
Example ping_is_answered :
  List.filter is_send (forward Ex.env Ex.channels Ex.store_ok Ex.cmd_ping).1
  = [SendMsg Ex.tghandle (py "-100123") (py "[alice] !ping");
     SendMsg Ex.tghandle (py "-100123") (py "pong");
     SendMsg Ex.irchandle (py "#a") (py "pong");
     SendMsg Ex.xmpphandle (py "room@conf") (py "[alice] !ping");
     SendMsg Ex.xmpphandle (py "room@conf") (py "pong")].
Proof. by vm_compute. Qed.

(** A row without the network of the message stops the loop. *)
Example row_without_network_raises :
  forward (mkEnv ascii_lower [(py "room1", delete (py "irc") Ex.room1)] None
                 Ex.parse Ex.handlers (λ _ _, 7%nat))
          Ex.channels Ex.store_ok Ex.hi
  = ([], Raise (KeyError (py "irc"))).
Proof. by vm_compute. Qed.

(** A lone surrogate in the content stops the loop at the diagnostic line. *)
Example lone_surrogate_raises :
  forward Ex.env Ex.channels Ex.store_ok (Ex.from_irc [0xD800] MessageType.Text)
  = ([], Raise UnicodeEncodeError).
Proof. by vm_compute. Qed.

Lemma Ex_routed text mtype :
  get_binding Ex.env (Ex.from_irc text mtype) = Ok (Some (py "room1", Ex.room1)).
Proof. by vm_compute. Qed.

Ltac by_decide := apply (bool_decide_unpack _); by vm_compute.

(** C1: the engine sends the event of [Ex.joined], which comes from IRC,
    to the IRC adapter as well. *)
Lemma event_sent_back_to_origin :
  ¬ event_to_others_only Ex.env Ex.channels Ex.store_ok Ex.joined.
Proof.
  intros H.
  destruct (H (py "room1") Ex.room1 (Ex_routed _ _) eq_refl) as [_ Hnot].
  apply (Hnot Ex.irchandle (py "#a") (py "bob joined")); [|done].
  apply list_elem_of_In. vm_compute. tauto.
Qed.

Lemma event_reaches_every_adapter_witness :
  forward Ex.env Ex.channels Ex.store_ok Ex.joined
  = (Print (DiagMsg Ex.joined (Some (py "room1")) 10)
       :: ChatLog (py "room1") Ex.joined
       :: [SendMsg Ex.tghandle (py "-100123") (py "bob joined");
           SendMsg Ex.irchandle (py "#a") (py "bob joined");
           SendMsg Ex.xmpphandle (py "room@conf") (py "bob joined")],
     Ok tt).
Proof.
  apply (event_reaches_every_adapter Ex.env Ex.channels Ex.store_ok Ex.joined
           (py "room1") Ex.room1 (py "bob joined")).
  - reflexivity.
  - by vm_compute.
  - by vm_compute.
  - unfold binds. by_decide.
Defined.

Lemma overflow_link_to_every_adapter_witness :
  List.filter is_send (forward Ex.env Ex.channels Ex.store_ok Ex.long).1
  = [SendMsg Ex.tghandle (py "-100123") (py "[alice] http://p/1 (long text)");
     SendMsg Ex.irchandle (py "#a") (py "[alice] http://p/1 (long text)");
     SendMsg Ex.xmpphandle (py "room@conf")
             (py "[alice] http://p/1 (long text)")].
Proof.
  refine (proj1 (proj2 (overflow_link_to_every_adapter
            Ex.env Ex.channels Ex.store_ok Ex.long (py "room1") Ex.room1
            (content Ex.long) (py "http://p/1") _ _ _ _ _ _))).
  - by vm_compute.
  - by vm_compute.
  - by vm_compute.
  - right. vm_compute. lia.
  - reflexivity.
  - unfold binds. by_decide.
Defined.

Lemma overflow_fires_iff_witness :
  (∃ ev, ev ∈ (forward Ex.env Ex.channels Ex.store_ok Ex.long).1
         ∧ is_paste ev = true)
  ↔ oversized (content Ex.long) (content Ex.long).
Proof.
  refine (proj2 (overflow_fires_iff Ex.env Ex.channels Ex.store_ok Ex.long
                   (py "room1") Ex.room1 (content Ex.long) _ _ _)).
  - by vm_compute.
  - by vm_compute.
  - by vm_compute.
Defined.

Lemma unroutable_dropped_witness :
  forward Ex.env Ex.channels Ex.store_ok Ex.stray
  = ([Print (DiagMsg Ex.stray None 2)], Ok tt).
Proof.
  refine (proj1 (proj2 (unroutable_dropped Ex.env Ex.channels Ex.store_ok
                          Ex.stray (py "hi") [Ex.hi] _ _))).
  - repeat constructor. exists (py "#a"). split; by vm_compute.
  - by vm_compute.
Defined.

(** C5: the reply to [Ex.long_ping] is logged and never sent when the text
    store is down. *)
Lemma reply_lost_when_paste_fails :
  ¬ reply_reaches_all Ex.env Ex.channels Ex.store_down Ex.long_ping.
Proof.
  intros H.
  destruct (H (py "room1") Ex.room1 (py "pong") (Ex_routed _ _) eq_refl)
    as [Hsent _]; [done|].
  assert (Hin : Ex.irchandle ∈ Ex.channels) by (by_decide).
  apply Hsent in Hin. revert Hin. by_decide.
Qed.

Lemma reply_logged_and_sent_witness :
  List.filter is_log (forward Ex.env Ex.channels Ex.store_ok Ex.cmd_ping).1
  = [ChatLog (py "room1") Ex.cmd_ping;
     ChatLog (py "room1")
       (mkMessage ChannelType.IRC (py "bot") (py "#a") (py "pong")
                  MessageType.Text None None None)]
  ∧ SendMsg Ex.irchandle (py "#a") (py "pong")
      ∈ (forward Ex.env Ex.channels Ex.store_ok Ex.cmd_ping).1.
Proof.
  destruct (reply_logged_and_sent Ex.env Ex.channels Ex.store_ok Ex.cmd_ping
              (py "room1") Ex.room1 (py "!ping") (py "pong"))
    as [(Hlog & _) Hsend].
  - by vm_compute.
  - by vm_compute.
  - by vm_compute.
  - by vm_compute.
  - split; [exact Hlog|].
    destruct Hsend as [Hsend _].
    + unfold binds. by_decide.
    + left. unfold oversized. vm_compute. lia.
    + apply (Hsend Ex.irchandle). by_decide.
Defined.

Lemma failed_command_relayed_as_text_witness :
  mtype Ex.cmd_boom = MessageType.Command
  ∧ mtype (dispatch Ex.env Ex.cmd_boom).1 = MessageType.Text
  ∧ List.filter is_log (forward Ex.env Ex.channels Ex.store_ok Ex.cmd_boom).1
    = [ChatLog (py "room1") (Ex.from_irc (py "!boom") MessageType.Text)]
  ∧ List.filter is_send (forward Ex.env Ex.channels Ex.store_ok Ex.cmd_boom).1
    = [SendMsg Ex.tghandle (py "-100123") (py "[alice] !boom");
       SendMsg Ex.xmpphandle (py "room@conf") (py "[alice] !boom")].
Proof.
  destruct (failed_command_relayed_as_text Ex.env Ex.channels Ex.store_ok
              Ex.cmd_boom (py "room1") Ex.room1 (py "!boom")
              (Exception (py "boom")))
    as (_ & Hm & _ & Htr & _ & Hlog & _).
  - by vm_compute.
  - by vm_compute.
  - reflexivity.
  - right; right. exists (py "boom"), [[]], Ex.boom. by vm_compute.
  - split; [reflexivity|]. split; [exact Hm|]. split; [exact Hlog|].
    rewrite Htr. by vm_compute.
Defined.

Lemma overflow_failure_drops_relay_witness :
  List.filter is_send (forward Ex.env Ex.channels Ex.store_down Ex.long).1 = []
  ∧ (forward Ex.env Ex.channels Ex.store_down Ex.long).2 = Ok tt.
Proof.
  destruct (overflow_failure_drops_relay Ex.env Ex.channels Ex.store_down
              Ex.long (py "room1") Ex.room1 (content Ex.long) [Ex.hi])
    as (Hs & _ & Hr & _).
  - by vm_compute.
  - by vm_compute.
  - by vm_compute.
  - right. vm_compute. lia.
  - reflexivity.
  - by split.
Defined.

Lemma inline_lines_to_other_adapters_witness :
  forward Ex.env Ex.channels Ex.store_ok Ex.lines
  = (Print (DiagMsg Ex.lines (Some (py "room1")) 10)
       :: ChatLog (py "room1") Ex.lines
       :: [SendMsg Ex.tghandle (py "-100123") (py "[alice] one");
           SendMsg Ex.tghandle (py "-100123") (py "[alice] two");
           SendMsg Ex.xmpphandle (py "room@conf") (py "[alice] one");
           SendMsg Ex.xmpphandle (py "room@conf") (py "[alice] two")],
     Ok tt).
Proof.
  refine (proj1 (inline_lines_to_other_adapters Ex.env Ex.channels Ex.store_ok
                   Ex.lines (py "room1") Ex.room1 (content Ex.lines)
                   _ _ _ _ _)).
  - by vm_compute.
  - by vm_compute.
  - by vm_compute.
  - unfold oversized. vm_compute. lia.
  - unfold binds. by_decide.
Defined.

Lemma overflow_failure_keeps_log_witness :
  List.filter is_log (forward Ex.env Ex.channels Ex.store_down Ex.long).1
  = [ChatLog (py "room1") Ex.long]
  ∧ List.filter is_send (forward Ex.env Ex.channels Ex.store_down Ex.long).1
    = [].
Proof.
  destruct (overflow_failure_keeps_log Ex.env Ex.channels Ex.store_down
              Ex.long (py "room1") Ex.room1 (content Ex.long))
    as (_ & Hl & _ & Hs).
  - by vm_compute.
  - by vm_compute.
  - by vm_compute.
  - right. vm_compute. lia.
  - reflexivity.
  - by split.
Defined.

(** * Further properties of the code *)

(** ** The resolver [get_binding] *)

Section Resolver.

Context (E : Env).

Lemma get_binding_from_split items msg c b :
  get_binding_from E items msg = Ok (Some (c, b)) →
  ∃ pre post, items = pre ++ (c, b) :: post
              ∧ b !! str_lower E (channel msg) = Some (receiver msg)
              ∧ Forall (passes_by E msg) pre.
Proof.
  induction items as [|[c' b'] items IH]; cbn [get_binding_from]; [done|].
  unfold getitem.
  destruct (b' !! str_lower E (channel msg)) as [addr|] eqn:Hb; [|done].
  destruct (decide (receiver msg = addr)) as [->|Hne].
  - intros [= -> ->]. exists [], items. by repeat split.
  - intros (pre & post & -> & Hrecv & Hpre)%IH.
    exists ((c', b') :: pre), post. repeat split; [done|].
    constructor; [|done]. by exists addr.
Qed.

(** The row [get_binding] returns is the first row of the table that binds
    the receiver on the network of the message: every row before it has an
    address for that network, and a different one. *)
Theorem get_binding_first_match msg c b :
  get_binding E msg = Ok (Some (c, b)) →
  ∃ pre post, config_bindings E = pre ++ (c, b) :: post
              ∧ b !! str_lower E (channel msg) = Some (receiver msg)
              ∧ Forall (passes_by E msg) pre.
Proof. apply get_binding_from_split. Qed.

Lemma get_binding_from_raise items msg e :
  get_binding_from E items msg = Raise e ↔
  e = KeyError (str_lower E (channel msg))
  ∧ ∃ pre row post, items = pre ++ row :: post
                    ∧ row.2 !! str_lower E (channel msg) = None
                    ∧ Forall (passes_by E msg) pre.
Proof.
  induction items as [|[c b] items IH]; cbn [get_binding_from].
  - split; [done|]. intros (_ & pre & row & post & Heq & _).
    by destruct pre.
  - unfold getitem.
    destruct (b !! str_lower E (channel msg)) as [addr|] eqn:Hb.
    + destruct (decide (receiver msg = addr)) as [Hrecv|Hne].
      * split; [done|]. intros (_ & pre & row & post & Heq & Hrow & Hpre).
        destruct pre as [|row' pre]; simplify_eq/=; try congruence.
        apply Forall_cons in Hpre as [(addr' & Hb' & Hne) _].
        simpl in Hb'. congruence.
      * rewrite IH. split.
        -- intros (-> & pre & row & post & -> & Hrow & Hpre).
           split; [done|]. exists ((c, b) :: pre), row, post.
           repeat split; [done|]. constructor; [|done]. by exists addr.
        -- intros (-> & pre & row & post & Heq & Hrow & Hpre).
           split; [done|].
           destruct pre as [|row' pre]; simplify_eq/=; try congruence.
           apply Forall_cons in Hpre as [_ Hpre]. by exists pre, row, post.
    + split.
      * intros [= <-]. split; [done|]. by exists [], (c, b), items.
      * intros (-> & _). done.
Qed.

(** [get_binding] raises exactly when, before any row matches, it meets a
    row without an address for the network of the message; what it raises
    is the [KeyError] of that (lower-cased) network name. *)
Theorem get_binding_raises_iff msg e :
  get_binding E msg = Raise e ↔
  e = KeyError (str_lower E (channel msg))
  ∧ ∃ pre row post, config_bindings E = pre ++ row :: post
                    ∧ row.2 !! str_lower E (channel msg) = None
                    ∧ Forall (passes_by E msg) pre.
Proof. apply get_binding_from_raise. Qed.

Lemma get_binding_from_only items msg c b :
  Forall (λ row : pystr * binding,
            is_Some (row.2 !! str_lower E (channel msg))) items →
  (c, b) ∈ items →
  b !! str_lower E (channel msg) = Some (receiver msg) →
  (∀ row, row ∈ items →
          row.2 !! str_lower E (channel msg) = Some (receiver msg) →
          row = (c, b)) →
  get_binding_from E items msg = Ok (Some (c, b)).
Proof.
  induction 1 as [|[c' b'] items [addr Hb'] _ IH]; intros Hin Hb Honly.
  - by apply not_elem_of_nil in Hin.
  - cbn [get_binding_from]. unfold getitem. simpl in Hb'. rewrite Hb'.
    destruct (decide (receiver msg = addr)) as [Hrecv|Hne].
    + by rewrite (Honly (c', b')); [|apply elem_of_cons; left|simpl; congruence].
    + apply IH; [|done|].
      * apply elem_of_cons in Hin as [[= -> ->]|?]; [congruence|done].
      * intros row Hrow. apply Honly. apply elem_of_cons; by right.
Qed.

(** In a table where every row has an address for the network of the
    message and only one row binds the receiver, [get_binding] returns
    that row, wherever it stands in the table. *)
Theorem get_binding_only_match msg c b :
  Forall (λ row : pystr * binding,
            is_Some (row.2 !! str_lower E (channel msg)))
         (config_bindings E) →
  (c, b) ∈ config_bindings E →
  b !! str_lower E (channel msg) = Some (receiver msg) →
  (∀ row, row ∈ config_bindings E →
          row.2 !! str_lower E (channel msg) = Some (receiver msg) →
          row = (c, b)) →
  get_binding E msg = Ok (Some (c, b)).
Proof. apply get_binding_from_only. Qed.

(** *** The handles and the resolver *)

Lemma collect_ok {A B} (f : A → result B) (l : list A) (ys : list B) :
  collect f l = Ok ys ↔ Forall2 (λ x y, f x = Ok y) l ys.
Proof.
  revert ys. induction l as [|x l IH]; intros ys; cbn [collect].
  - split; [intros [= <-]; constructor | by inversion 1].
  - destruct (f x) as [y|e] eqn:Hx.
    + destruct (collect f l) as [ys'|e] eqn:Hl.
      * split.
        -- intros [= <-]. constructor; [done | by apply IH].
        -- inversion 1 as [|? y' ? ys'' Hy Hrest]; subst.
           apply IH in Hrest. congruence.
      * split; [done|]. inversion 1 as [|? y' ? ys'' Hy Hrest]; subst.
        apply IH in Hrest. congruence.
    + split; [done|]. inversion 1; congruence.
Qed.

(** When the column of a network can be read, a message of that network
    is resolved without error, and it finds a row exactly when its
    receiver is in the column. *)
Lemma column_guards_get_binding key col msg :
  column E key = Ok col →
  str_lower E (channel msg) = key →
  ∃ r, get_binding E msg = Ok r ∧ (is_Some r ↔ receiver msg ∈ col).
Proof.
  unfold column, get_binding. intros Hcol <-.
  apply collect_ok in Hcol. revert Hcol.
  generalize (config_bindings E). intros items Hcol.
  induction Hcol as [|[c b] addr items col Hrow _ IH];
    cbn [get_binding_from].
  - exists None. split; [done|]. split; [by intros [? ?]|].
    intros H. by apply not_elem_of_nil in H.
  - simpl in Hrow. rewrite Hrow.
    destruct (decide (receiver msg = addr)) as [Hrecv|Hne].
    + eexists. split; [done|]. split; [|by eexists].
      intros _. apply elem_of_cons; by left.
    + destruct IH as (r & -> & Hr). exists r. split; [done|].
      rewrite Hr, elem_of_cons. split; [by right | by intros [?|?]].
Qed.

End Resolver.

(** ** The handles [init_irc] and [init_xmpp] *)

Section HandleFacts.

Context {V : Type} (E : Env).

Lemma column_ok key col :
  column E key = Ok col ↔
  Forall2 (λ (row : pystr * binding) addr, row.2 !! key = Some addr)
          (config_bindings E) col.
Proof.
  unfold column. rewrite collect_ok. unfold getitem.
  split; intros H; (eapply Forall2_impl; [exact H|]); intros row addr;
    cbn beta; destruct (row.2 !! key); intros Heq; by simplify_eq.
Qed.

Lemma column_raise key :
  (∃ row, row ∈ config_bindings E ∧ row.2 !! key = None) →
  column E key = Raise (KeyError key).
Proof.
  unfold column. induction (config_bindings E) as [|row items IH];
    intros (row' & Hin & Hrow); cbn [collect].
  - by apply not_elem_of_nil in Hin.
  - unfold getitem at 1. destruct (row.2 !! key) as [addr|] eqn:Hr; [|done].
    rewrite IH; [done|]. exists row'. split; [|done].
    apply elem_of_cons in Hin as [->|?]; [congruence|done].
Qed.

(** [init_irc] returns a handle exactly when every row of the table has an
    [irc] address and the [irc] section has its five settings; the
    channels of the handle are then the [irc] addresses of the rows, one
    per row and in the order of the table. *)
Theorem init_irc_returns (irc : option (gmap pystr V)) (h : IRCHandle V) :
  init_irc E irc = Ok h ↔
  Forall2 (λ (row : pystr * binding) addr, row.2 !! py "irc" = Some addr)
          (config_bindings E) (irc_channels h)
  ∧ ∃ sect, irc = Some sect
            ∧ sect !! py "server" = Some (irc_server h)
            ∧ sect !! py "port" = Some (irc_port h)
            ∧ sect !! py "nick" = Some (irc_nickname h)
            ∧ sect !! py "ssl" = Some (irc_usessl h)
            ∧ sect !! py "blacklist" = Some (irc_blacklist h).
Proof.
  rewrite <- column_ok. unfold init_irc, mbind, result_bind, mret, result_ret.
  destruct (column E (py "irc")) as [col|e]; [|by split; [|intros []]].
  destruct irc as [sect|]; cbn [section_get].
  - destruct (sect !! py "server") as [v1|] eqn:H1;
      [|split; [done|intros (_ & ? & [= <-] & ? & _); congruence]].
    destruct (sect !! py "port") as [v2|] eqn:H2;
      [|split; [done|intros (_ & ? & [= <-] & _ & ? & _); congruence]].
    destruct (sect !! py "nick") as [v3|] eqn:H3;
      [|split; [done|intros (_ & ? & [= <-] & _ & _ & ? & _); congruence]].
    destruct (sect !! py "ssl") as [v4|] eqn:H4;
      [|split; [done|intros (_ & ? & [= <-] & _ & _ & _ & ? & _); congruence]].
    destruct (sect !! py "blacklist") as [v5|] eqn:H5;
      [|split; [done|intros (_ & ? & [= <-] & _ & _ & _ & _ & ?); congruence]].
    split.
    + intros [= <-]. split; [done|]. by exists sect.
    + intros ([= ->] & ? & [= <-] & ? & ? & ? & ? & ?).
      destruct h; simplify_eq/=. done.
  - split; [done|]. by intros (_ & ? & ? & _).
Qed.

(** A row without an [irc] address makes [init_irc] raise the [KeyError]
    of ["irc"], whatever the [irc] section holds. *)
Theorem init_irc_needs_every_row (irc : option (gmap pystr V)) :
  (∃ row, row ∈ config_bindings E ∧ row.2 !! py "irc" = None) →
  init_irc E irc = Raise (KeyError (py "irc")).
Proof. intros H. unfold init_irc. by rewrite (column_raise (py "irc") H). Qed.

(** Once [init_irc] has returned a handle, a message whose network name
    lower-cases to ["irc"] never makes [get_binding] raise, and it is
    routed exactly when its receiver is one of the channels of the
    handle. *)
Theorem init_irc_guards_get_binding (irc : option (gmap pystr V))
    (h : IRCHandle V) msg :
  init_irc E irc = Ok h →
  str_lower E (channel msg) = py "irc" →
  ∃ r, get_binding E msg = Ok r
       ∧ (is_Some r ↔ receiver msg ∈ irc_channels h).
Proof.
  unfold init_irc, mbind, result_bind, mret, result_ret.
  destruct (column E (py "irc")) as [col|e] eqn:Hcol; [|done].
  destruct (section_get _ irc (py "server")); [|done].
  destruct (section_get _ irc (py "port")); [|done].
  destruct (section_get _ irc (py "nick")); [|done].
  destruct (section_get _ irc (py "ssl")); [|done].
  destruct (section_get _ irc (py "blacklist")); [|done].
  intros [= <-] Hlow. cbn [irc_channels].
  by apply (column_guards_get_binding E (py "irc")).
Qed.

(** The same for [init_xmpp]: a returned handle has the [xmpp] addresses
    of the rows as its rooms, and a message whose network name lower-cases
    to ["xmpp"] is then resolved without error, to a row exactly when its
    receiver is one of the rooms. *)
Theorem init_xmpp_guards_get_binding (xmpp : option (gmap pystr V))
    (h : XMPPHandle V) msg :
  init_xmpp E xmpp = Ok h →
  str_lower E (channel msg) = py "xmpp" →
  Forall2 (λ (row : pystr * binding) addr, row.2 !! py "xmpp" = Some addr)
          (config_bindings E) (xmpp_rooms h)
  ∧ ∃ r, get_binding E msg = Ok r
         ∧ (is_Some r ↔ receiver msg ∈ xmpp_rooms h).
Proof.
  unfold init_xmpp, mbind, result_bind, mret, result_ret.
  destruct (column E (py "xmpp")) as [col|e] eqn:Hcol; [|done].
  destruct (section_get _ xmpp (py "server")); [|done].
  destruct (section_get _ xmpp (py "port")); [|done].
  destruct (section_get _ xmpp (py "nick")); [|done].
  destruct (section_get _ xmpp (py "jid")); [|done].
  destruct (section_get _ xmpp (py "password")); [|done].
  intros [= <-] Hlow. cbn [xmpp_rooms].
  split; [by apply column_ok|].
  by apply (column_guards_get_binding E (py "xmpp")).
Qed.

End HandleFacts.

(** ** More on one turn of the loop *)

Section TurnFacts.

Context (E : Env) (channels : list Adapter) (text_store : TextStore).

Lemma filter_nil_Forall {A} (f : A → bool) (l : list A) :
  List.filter f l = [] → Forall (λ x, f x = false) l.
Proof.
  induction l as [|x l IH]; cbn [List.filter]; [constructor|].
  destruct (f x) eqn:Hx; [done|]. constructor; auto.
Qed.

Lemma send_event_only_sends b msg :
  Forall (λ ev, is_send ev = true) (send_event E channels b msg).1.
Proof.
  unfold send_event. induction channels as [|a cs IH]; cbn [for_each]; [by run|].
  unfold getitem. destruct (b !! str_lower E (ChanTag a)); run; [|done].
  by constructor.
Qed.

Lemma relay_after_logs c b msg bot_reply :
  ∃ rest, (relay E channels text_store c b msg bot_reply).1
          = log_calls E c msg bot_reply ++ rest
          ∧ Forall (λ ev, is_log ev = false) rest.
Proof.
  assert (∃ rest, (relay E channels text_store c b msg bot_reply).1
                  = log_calls E c msg bot_reply ++ rest) as [rest Hrest].
  { unfold relay, log_calls. run. destruct (truthy bot_reply); run; by eexists. }
  exists rest. split; [done|]. apply filter_nil_Forall.
  pose proof (relay_logs_once E channels text_store c b msg bot_reply) as Hl.
  rewrite Hrest, List.filter_app in Hl.
  rewrite (filter_keeps_all is_log (log_calls E c msg bot_reply)) in Hl
    by apply log_calls_only_logs.
  rewrite <- (app_nil_r (log_calls E c msg bot_reply)) in Hl at 2.
  by apply app_inv_head in Hl.
Qed.

(** A routed message is logged before anything else is done with it:
    after the diagnostic line, the turn starts with the log call for the
    message (and the one for the reply, if the command block left one),
    and no log call follows, however the turn ends. *)
Theorem routed_logged_first msg c b bytes :
  get_binding E msg = Ok (Some (c, b)) →
  utf8_encode (content msg) = Some bytes →
  ∃ rest,
    (forward E channels text_store msg).1
    = Print (DiagMsg msg (Some c) (length bytes))
        :: log_calls E c (dispatch E msg).1 (dispatch E msg).2 ++ rest
    ∧ Forall (λ ev, is_log ev = false) rest.
Proof.
  intros Hb Henc.
  rewrite (forward_routed E channels text_store msg c b bytes Hb Henc).
  cbn [fst].
  destruct (relay_after_logs c b (dispatch E msg).1 (dispatch E msg).2)
    as (rest & -> & Hrest).
  by exists rest.
Qed.

Lemma send_contents_quiet b msg contents send_back bot_reply a target text :
  truthy bot_reply = false →
  SendMsg a target text
    ∈ (send_contents E channels b msg contents send_back bot_reply).1 →
  ∃ line, line ∈ contents ∧ text = msg_tmpl (sender msg) line.
Proof.
  intros Hquiet. unfold send_contents. rewrite Hquiet.
  induction channels as [|c cs IH]; cbn [for_each].
  - intros H. by apply not_elem_of_nil in H.
  - unfold getitem. destruct (b !! str_lower E (ChanTag c)) as [addr|].
    + run.
      destruct (bool_decide (ChanTag c ≠ channel msg) || send_back); run.
      * rewrite app_nil_r.
        intros [Hin|Hin]%elem_of_app; [|by apply IH].
        apply list_elem_of_In, in_map_iff in Hin as (line & [= _ _ <-] & Hin).
        exists line. split; [by apply list_elem_of_In | done].
      * apply IH.
    + run. intros H. by apply not_elem_of_nil in H.
Qed.

Lemma relay_quiet c b msg bot_reply bytes a target text :
  mtype msg ≠ MessageType.Event →
  utf8_encode (content msg) = Some bytes →
  truthy bot_reply = false →
  SendMsg a target text ∈ (relay E channels text_store c b msg bot_reply).1 →
  ∃ line,
    text = msg_tmpl (sender msg) line
    ∧ ((¬ oversized (content msg) bytes
        ∧ line ∈ inline_contents (content msg))
       ∨ (oversized (content msg) bytes
          ∧ ∃ text_url,
              new_paste text_store (content msg) (sender msg) c
                        (date msg) (time msg) (chat_logger_log E c msg)
              = Some text_url
              ∧ line = text_url ++ py " (long text)")).
Proof.
  intros Hev Henc Hquiet Hin.
  assert (Hlog : ∀ rest, SendMsg a target text
                   ∈ log_calls E c msg bot_reply ++ rest →
                 SendMsg a target text ∈ rest).
  { intros rest [Hl|?]%elem_of_app; [|done].
    unfold log_calls in Hl. rewrite Hquiet in Hl.
    by apply list_elem_of_singleton in Hl. }
  destruct (decide (oversized (content msg) bytes)) as [Hbig|Hsmall].
  - destruct (new_paste text_store (content msg) (sender msg) c
                (date msg) (time msg) (chat_logger_log E c msg))
      as [url|] eqn:Hurl.
    + rewrite (relay_paste E channels text_store c b msg _ bytes url
                           Hev Henc Hbig Hurl) in Hin.
      apply Hlog, elem_of_cons in Hin as [?|Hin]; [done|].
      apply send_contents_quiet in Hin as (line & Hline & ->); [|done].
      apply list_elem_of_singleton in Hline as ->.
      eexists. split; [done|]. right. split; [done|]. by exists url.
    + rewrite (relay_paste_failed E channels text_store c b msg _ bytes
                                  Hev Henc Hbig Hurl) in Hin.
      apply Hlog in Hin. rewrite !elem_of_cons, elem_of_nil in Hin.
      by destruct Hin as [?|[?|[]]].
  - rewrite (relay_inline E channels text_store c b msg _ bytes
                          Hev Henc Hsmall) in Hin.
    apply Hlog in Hin.
    apply send_contents_quiet in Hin as (line & Hline & ->); [|done].
    exists line. split; [done|]. by left.
Qed.

(** A command that is handled without a reply (no handler is registered
    for it, or the handler returns [None] or the empty string) is logged
    as the [Command] it is, and as the only message of the turn; whatever
    is sent for it is ["[sender] line"], where the line is a line of its
    own content when it is relayed inline, and the link of its paste when
    it is oversized: no reply is sent. *)
Theorem quiet_command_relayed_unchanged msg c b bytes reply :
  get_binding E msg = Ok (Some (c, b)) →
  utf8_encode (content msg) = Some bytes →
  mtype msg = MessageType.Command →
  run_command E msg = Ok reply →
  truthy reply = false →
  mtype (dispatch E msg).1 = MessageType.Command
  ∧ List.filter is_log (forward E channels text_store msg).1
    = [ChatLog c msg]
  ∧ (∀ a target text,
       SendMsg a target text ∈ (forward E channels text_store msg).1 →
       ∃ line,
         text = py "[" ++ sender msg ++ py "] " ++ line
         ∧ ((¬ oversized (content msg) bytes
             ∧ line ∈ inline_contents (content msg))
            ∨ (oversized (content msg) bytes
               ∧ ∃ text_url,
                   new_paste text_store (content msg) (sender msg) c
                             (date msg) (time msg) (chat_logger_log E c msg)
                   = Some text_url
                   ∧ line = text_url ++ py " (long text)"))).
Proof.
  intros Hb Henc Hcmd Hrun Hquiet.
  assert (Hd : dispatch E msg = (msg, reply)).
  { unfold dispatch. rewrite Hrun. by destruct (decide _). }
  assert (Hev : mtype msg ≠ MessageType.Event)
    by (rewrite Hcmd; by vm_compute).
  rewrite (forward_routed E channels text_store msg c b bytes Hb Henc), Hd.
  cbn [fst snd]. split; [done|]. split.
  - cbn [List.filter is_log]. rewrite relay_logs_once.
    unfold log_calls. by rewrite Hquiet.
  - intros a target text Hin.
    apply elem_of_cons in Hin as [?|Hin]; [done|].
    by apply (relay_quiet c b msg reply bytes a target) in Hin.
Qed.

(** An event never reaches the text store: whatever its length, no turn of
    an [Event] message calls [new_paste]. *)
Theorem event_never_pasted msg :
  mtype msg = MessageType.Event →
  Forall (λ ev, is_paste ev = false) (forward E channels text_store msg).1.
Proof.
  intros Hev. unfold forward.
  destruct (get_binding E msg) as [[[c b]|]|e]; run; [| |done].
  - destruct (utf8_encode (content msg)); run; [|done].
    rewrite dispatch_other by (rewrite Hev; by vm_compute).
    constructor; [done|]. unfold relay. run. cbn [truthy]. run.
    constructor; [done|].
    destruct (decide (mtype msg = MessageType.Event)); [|done].
    eapply Forall_impl; [apply send_event_only_sends|]. by intros [].
  - destruct (utf8_encode (content msg)); run; [|done]. by repeat constructor.
Qed.

Lemma relay_pastes c b msg bot_reply :
  List.filter is_paste (relay E channels text_store c b msg bot_reply).1 = []
  ∨ List.filter is_paste (relay E channels text_store c b msg bot_reply).1
    = [NewPaste (content msg) (sender msg) c (date msg) (time msg)
                (chat_logger_log E c msg)].
Proof.
  assert (Hnil : ∀ l, Forall (λ ev, is_send ev = true) l →
                      List.filter is_paste l = []).
  { intros l Hl. apply filter_drops_all.
    eapply Forall_impl; [exact Hl|]. by intros []. }
  assert (Hlogs : List.filter is_paste (log_calls E c msg bot_reply) = []).
  { apply filter_drops_all.
    eapply Forall_impl; [apply log_calls_only_logs|]. by intros []. }
  unfold relay.
  set (rest := if decide (mtype msg = MessageType.Event) then _ else _).
  assert (Hrest : List.filter is_paste rest.1 = []
                  ∨ List.filter is_paste rest.1
                    = [NewPaste (content msg) (sender msg) c (date msg)
                                (time msg) (chat_logger_log E c msg)]).
  { subst rest. destruct (decide (mtype msg = MessageType.Event)).
    - left. apply Hnil, send_event_only_sends.
    - unfold overflow_policy.
      destruct (overflows (content msg)) as [[]|]; run; [| |by left].
      + right. destruct (new_paste _ _ _ _ _ _ _); run; [|done].
        cbn [List.filter is_paste]. by rewrite Hnil
          by apply send_contents_only_sends.
      + left. apply Hnil, send_contents_only_sends. }
  assert (Heq : (emit (ChatLog c msg) ≫= λ _ : (),
                  (if truthy bot_reply
                   then emit (ChatLog c (reply_message E msg bot_reply))
                   else mret ()) ≫= λ _ : (), rest).1
                = log_calls E c msg bot_reply ++ rest.1).
  { unfold log_calls. run. destruct (truthy bot_reply); by run. }
  rewrite Heq, List.filter_app, Hlogs. exact Hrest.
Qed.

(** A turn calls the text store at most once, and when it does, the
    message is routed and the paste is made of the content, the sender and
    the dates of the message, under the room the message resolved to and
    the id the chat logger returned for it. *)
Theorem paste_at_most_once msg :
  (length (List.filter is_paste (forward E channels text_store msg).1)
   ≤ 1)%nat
  ∧ (∀ ev, ev ∈ (forward E channels text_store msg).1 →
           is_paste ev = true →
           ∃ c b, get_binding E msg = Ok (Some (c, b))
                  ∧ ev = NewPaste (content msg) (sender msg) c
                                  (date msg) (time msg)
                                  (chat_logger_log E c (dispatch E msg).1)).
Proof.
  assert (Hmem : ∀ ev l, ev ∈ l → is_paste ev = true →
                         ev ∈ List.filter is_paste l).
  { intros ev l Hin Hp. apply list_elem_of_In, filter_In.
    split; [by apply list_elem_of_In | done]. }
  unfold forward.
  destruct (get_binding E msg) as [[[c b]|]|e]; run.
  - destruct (utf8_encode (content msg)); run.
    + destruct (dispatch_fields E msg) as (_ & Hs & _ & Hc & Hd & Ht & _).
      destruct (dispatch E msg) as [msg' bot_reply]. cbn [fst snd] in *.
      cbn [List.filter is_paste].
      destruct (relay_pastes c b msg' bot_reply) as [Hp|Hp].
      * rewrite Hp. split; [simpl; lia|].
        intros ev [?|Hin]%elem_of_cons Hev; [by subst|].
        apply (Hmem _ _ Hin) in Hev. rewrite Hp in Hev.
        by apply not_elem_of_nil in Hev.
      * rewrite Hp. split; [simpl; lia|].
        intros ev [?|Hin]%elem_of_cons Hev; [by subst|].
        apply (Hmem _ _ Hin) in Hev. rewrite Hp in Hev.
        apply list_elem_of_singleton in Hev as ->.
        exists c, b. split; [done|]. by rewrite Hs, Hc, Hd, Ht.
    + split; [simpl; lia|]. intros ev Hin. by apply not_elem_of_nil in Hin.
  - destruct (utf8_encode (content msg)); run.
    + split; [simpl; lia|].
      intros ev Hin%list_elem_of_singleton Hev. by subst.
    + split; [simpl; lia|]. intros ev Hin. by apply not_elem_of_nil in Hin.
  - split; [simpl; lia|]. intros ev Hin. by apply not_elem_of_nil in Hin.
Qed.

End TurnFacts.

(** ** Failures in the fan-out, and the loop as a whole *)

Section LoopFacts.

Context (E : Env) (text_store : TextStore).

Lemma for_each_app {A} (l1 l2 : list A) (body : A → eff unit) :
  for_each (l1 ++ l2) body = (for_each l1 body ≫= λ _, for_each l2 body).
Proof.
  induction l1 as [|x l1 IH]; cbn [for_each app]; [by run|].
  rewrite IH. destruct (body x) as [tr [[]|e]]; run; [|done].
  destruct (for_each l1 body) as [tr1 [[]|e1]]; run; [|done].
  by rewrite app_assoc.
Qed.

Lemma send_contents_stops pre a post b msg contents send_back bot_reply :
  binds E b pre →
  b !! str_lower E (ChanTag a) = None →
  send_contents E (pre ++ a :: post) b msg contents send_back bot_reply
  = (flat_map (adapter_sends E b msg contents send_back bot_reply) pre,
     Raise (KeyError (str_lower E (ChanTag a)))).
Proof.
  intros Hpre Ha. unfold send_contents. rewrite for_each_app.
  fold (send_contents E pre b msg contents send_back bot_reply).
  rewrite (send_contents_bound E pre b msg contents send_back bot_reply Hpre).
  run. cbn [for_each]. unfold getitem. rewrite Ha. run.
  by rewrite app_nil_r.
Qed.

(** When an adapter of [channels] has no address in the row of a message
    that is relayed inline, the turn raises the [KeyError] of that
    adapter's (lower-cased) tag: the message has been logged and the
    adapters before it have been served, the adapters after it get
    nothing. *)
Theorem fanout_stops_at_unbound_adapter msg c b bytes pre a post :
  get_binding E msg = Ok (Some (c, b)) →
  utf8_encode (content msg) = Some bytes →
  mtype msg ≠ MessageType.Event →
  ¬ oversized (content msg) bytes →
  binds E b pre →
  b !! str_lower E (ChanTag a) = None →
  forward E (pre ++ a :: post) text_store msg
  = (Print (DiagMsg msg (Some c) (length bytes))
       :: log_calls E c (dispatch E msg).1 (dispatch E msg).2
       ++ flat_map (adapter_sends E b (dispatch E msg).1
                                  (inline_contents (content msg)) false
                                  (dispatch E msg).2) pre,
     Raise (KeyError (str_lower E (ChanTag a)))).
Proof.
  intros Hb Henc Hev Hsmall Hpre Ha.
  rewrite (forward_routed E _ text_store msg c b bytes Hb Henc).
  pose proof (dispatch_not_event E msg Hev) as Hev'.
  destruct (dispatch_fields E msg) as (_ & _ & _ & Hc & _).
  rewrite <- Hc in *.
  rewrite (relay_inline E _ text_store c b _ _ bytes Hev' Henc Hsmall).
  by rewrite (send_contents_stops pre a post b _ _ false _ Hpre Ha).
Qed.

Lemma ForwardingThread_concat channels s1 s2 :
  ForwardingThread E channels text_store (s1 ++ s2)
  = match ForwardingThread E channels text_store s1 with
    | (tr, Ok _) =>
        (tr ++ (ForwardingThread E channels text_store s2).1,
         (ForwardingThread E channels text_store s2).2)
    | (tr, Raise e) => (tr, Raise e)
    end.
Proof.
  induction s1 as [|msg s1 IH]; cbn [ForwardingThread app].
  - run. by destruct (ForwardingThread E channels text_store s2).
  - rewrite IH.
    destruct (forward E channels text_store msg) as [tr [[]|e]]; [|by run].
    destruct (ForwardingThread E channels text_store s1) as [tr1 [[]|e1]];
      run; cbn [fst snd]; [by rewrite app_assoc | done].
Qed.

(** The loop handles a stream piece by piece: the calls for [s1 ++ s2] are
    the calls for [s1] followed by those for [s2], unless a turn of [s1]
    raises, and then nothing of [s2] is handled. *)
Theorem ForwardingThread_app channels s1 s2 :
  ForwardingThread E channels text_store (s1 ++ s2)
  = match ForwardingThread E channels text_store s1 with
    | (tr, Ok _) =>
        (tr ++ (ForwardingThread E channels text_store s2).1,
         (ForwardingThread E channels text_store s2).2)
    | (tr, Raise e) => (tr, Raise e)
    end.
Proof. apply ForwardingThread_concat. Qed.

(** A turn that raises ends the loop: the messages before it have been
    handled, the calls of the failing turn up to the error have been made,
    and no message after it is ever looked at. *)
Theorem ForwardingThread_stops_on_raise channels before msg rest e :
  (ForwardingThread E channels text_store before).2 = Ok tt →
  (forward E channels text_store msg).2 = Raise e →
  ForwardingThread E channels text_store (before ++ msg :: rest)
  = ((ForwardingThread E channels text_store before).1
       ++ (forward E channels text_store msg).1,
     Raise e).
Proof.
  intros Hbefore Hmsg. rewrite ForwardingThread_concat.
  destruct (ForwardingThread E channels text_store before) as [tr r].
  cbn [fst snd] in *. subst r. cbn [ForwardingThread].
  destruct (forward E channels text_store msg) as [tr' r'].
  cbn [fst snd] in *. subst r'. by run.
Qed.

End LoopFacts.

(** ** The overflow policy and the lines of a message *)

Module PolicyFacts.

Lemma utf8_encode_char_length c bs :
  utf8_encode_char c = Some bs → (1 ≤ length bs ≤ 4)%nat.
Proof.
  unfold utf8_encode_char. intros H.
  repeat match type of H with
         | (if ?b then _ else _) = _ => destruct b
         end; simplify_eq; simpl; lia.
Qed.

(** The encoding of a text has at least one byte and at most four bytes
    for each of its code points. *)
Lemma utf8_encode_length s bytes :
  utf8_encode s = Some bytes →
  (length s ≤ length bytes ≤ 4 * length s)%nat.
Proof.
  revert bytes. induction s as [|c s IH]; intros bytes; cbn [utf8_encode].
  - intros [= <-]. simpl. lia.
  - destruct (utf8_encode_char c) as [bs|] eqn:Hc; [|done].
    destruct (utf8_encode s) as [bs'|]; [|done].
    intros [= <-]. apply utf8_encode_char_length in Hc.
    specialize (IH bs' eq_refl). rewrite length_app. simpl. lia.
Qed.

Lemma utf8_encode_app s1 s2 b1 b2 :
  utf8_encode s1 = Some b1 → utf8_encode s2 = Some b2 →
  utf8_encode (s1 ++ s2) = Some (b1 ++ b2).
Proof.
  revert b1. induction s1 as [|c s1 IH]; intros b1; cbn [utf8_encode app].
  - by intros [= <-].
  - destruct (utf8_encode_char c) as [bs|]; [|done].
    destruct (utf8_encode s1) as [bs'|]; [|done].
    intros [= <-] H2. rewrite (IH bs' eq_refl H2). by rewrite app_assoc.
Qed.

Lemma utf8_encode_ascii text :
  Forall (λ ch, ch < 0x80) text → utf8_encode text = Some text.
Proof.
  induction 1 as [|ch s Hch _ IH]; cbn [utf8_encode]; [done|].
  unfold utf8_encode_char. apply N.ltb_lt in Hch. by rewrite Hch, IH.
Qed.

Lemma utf8_encode_astral text :
  Forall (λ ch, 0x10000 ≤ ch < 0x110000) text →
  ∃ bytes, utf8_encode text = Some bytes
           ∧ length bytes = (4 * length text)%nat
           ∧ count NL text = 0%nat.
Proof.
  induction 1 as [|ch s [Hlo Hhi] _ (bs & IH & Hlen & Hnl)];
    cbn [utf8_encode count]; [by exists []|].
  unfold utf8_encode_char.
  assert ((ch <? 0x80) = false) as -> by (apply N.ltb_ge; lia).
  assert ((ch <? 0x800) = false) as -> by (apply N.ltb_ge; lia).
  assert ((ch <? 0x10000) = false) as -> by (apply N.ltb_ge; lia).
  assert ((ch <? 0x110000) = true) as -> by (by apply N.ltb_lt).
  rewrite IH. eexists. split; [done|]. split.
  - cbn [length app]. lia.
  - destruct (decide (ch = NL)) as [->|_]; [|done]. unfold NL in Hlo. lia.
Qed.

Lemma length_filter_le {A} (f : A → bool) (l : list A) :
  (length (List.filter f l) ≤ length l)%nat.
Proof.
  induction l as [|x l IH]; cbn [List.filter]; [done|].
  destruct (f x); simpl; lia.
Qed.

Lemma inline_contents_short text bytes :
  ¬ oversized text bytes →
  (length (inline_contents text) ≤ 6)%nat.
Proof.
  unfold oversized, inline_contents. intros Hsmall.
  pose proof (length_filter_le (λ line, negb (match_blank line))
                               (split NL text)) as Hle.
  rewrite PyStrFacts.length_split, PyStrFacts.count_count_occ in Hle. lia.
Qed.

(** A message that is relayed inline has at most 6 lines. *)
Theorem inline_at_most_six_lines text bytes :
  ¬ oversized text bytes →
  (length (inline_contents text) ≤ 6)%nat.
Proof. apply inline_contents_short. Qed.

Lemma split_fields_encode sep s bytes field :
  utf8_encode s = Some bytes →
  field ∈ split sep s →
  ∃ fb, utf8_encode field = Some fb ∧ (length fb ≤ length bytes)%nat.
Proof.
  revert bytes field.
  induction s as [|x s IH]; intros bytes field; cbn [utf8_encode split].
  - intros [= <-] ->%list_elem_of_singleton. by exists [].
  - destruct (utf8_encode_char x) as [bx|] eqn:Hx; [|done].
    destruct (utf8_encode s) as [bs|] eqn:Hs; [|done].
    intros [= <-]. rewrite length_app.
    destruct (decide (x = sep)) as [->|Hne].
    + intros [->|Hin]%elem_of_cons.
      * exists []. split; [done | simpl; lia].
      * destruct (IH bs field eq_refl Hin) as (fb & Hfb & Hle).
        exists fb. split; [done | lia].
    + destruct (split sep s) as [|f fs] eqn:Hsplit.
      * by destruct (PyStrFacts.split_nonempty sep s).
      * intros [->|Hin]%elem_of_cons.
        -- destruct (IH bs f eq_refl) as (fb & Hfb & Hle);
             [apply elem_of_cons; by left|].
           exists (bx ++ fb). cbn [utf8_encode]. rewrite Hx, Hfb.
           split; [done | rewrite length_app; lia].
        -- destruct (IH bs field eq_refl) as (fb & Hfb & Hle);
             [apply elem_of_cons; by right|].
           exists fb. split; [done | lia].
Qed.

(** Every line of a message that is relayed inline can be encoded, to
    fewer than 400 bytes. *)
Theorem inline_lines_under_400_bytes text bytes line :
  utf8_encode text = Some bytes →
  ¬ oversized text bytes →
  line ∈ inline_contents text →
  ∃ lb, utf8_encode line = Some lb ∧ (length lb < 400)%nat.
Proof.
  intros Henc Hsmall Hin. unfold inline_contents in Hin.
  apply list_elem_of_In, filter_In in Hin as [Hin%list_elem_of_In _].
  destruct (split_fields_encode NL text bytes line Henc Hin) as (lb & Hlb & Hle).
  exists lb. split; [done|]. unfold oversized in Hsmall. lia.
Qed.

Lemma split_all_blank s :
  Forall (λ line, match_blank line = true) (split NL s)
  ↔ Forall (λ ch, isspace ch = true) s.
Proof.
  induction s as [|x s IH]; cbn [split].
  - split; [constructor|]. intros _. by repeat constructor.
  - destruct (decide (x = NL)) as [->|Hne].
    + rewrite !Forall_cons, IH. split; [by intros [_ ?] | by intros [_ ?]].
    + destruct (split NL s) as [|f fs] eqn:Hs.
      * by destruct (PyStrFacts.split_nonempty NL s).
      * rewrite !Forall_cons in *. rewrite <- IH. unfold match_blank.
        cbn [forallb]. rewrite andb_true_iff. tauto.
Qed.

Lemma inline_contents_nil text :
  inline_contents text = [] ↔ Forall (λ ch, isspace ch = true) text.
Proof.
  rewrite <- split_all_blank. unfold inline_contents. split.
  - intros H%(filter_nil_Forall). eapply Forall_impl; [exact H|].
    intros line. cbn beta. by destruct (match_blank line).
  - intros H. apply filter_drops_all. eapply Forall_impl; [exact H|].
    intros line ->. done.
Qed.

(** A message made of whitespace only (spaces, tabs, newlines, or nothing
    at all) has no line to relay, and it is the only kind that has none. *)
Theorem blank_content_has_no_line text :
  inline_contents text = [] ↔ Forall (λ ch, isspace ch = true) text.
Proof. apply inline_contents_nil. Qed.

Lemma split_no_newline sep s : sep ∉ s → split sep s = [s].
Proof.
  induction s as [|x s IH]; cbn [split]; [done|].
  intros Hnot. destruct (decide (x = sep)) as [->|Hne].
  - destruct Hnot. apply elem_of_cons; by left.
  - rewrite IH; [done|]. intros Hin. apply Hnot. apply elem_of_cons; by right.
Qed.

(** A message of one line that is not blank is relayed as that one line,
    unchanged. *)
Theorem single_line_relayed_verbatim text :
  NL ∉ text →
  ¬ Forall (λ ch, isspace ch = true) text →
  inline_contents text = [text].
Proof.
  intros Hnl Hblank. unfold inline_contents.
  rewrite (split_no_newline NL text Hnl). cbn [List.filter].
  destruct (match_blank text) eqn:Hb; [|done].
  by apply PyStrFacts.match_blank_spec in Hb.
Qed.

End PolicyFacts.

(** ** What an inline message can send *)

Section InlineFacts.

Context (E : Env) (channels : list Adapter) (text_store : TextStore).

Lemma send_contents_length b msg contents send_back bot_reply :
  (length (send_contents E channels b msg contents send_back bot_reply).1
   ≤ (length contents + 1) * length channels)%nat.
Proof.
  unfold send_contents. induction channels as [|a cs IH]; cbn [for_each].
  - run. cbn [length]. lia.
  - set (rest := for_each cs _) in *. unfold getitem.
    destruct (b !! str_lower E (ChanTag a)) as [addr|];
      [|run; cbn [length]; lia].
    destruct (bool_decide (ChanTag a ≠ channel msg) || send_back);
      destruct (truthy bot_reply); run;
      rewrite ?length_app, ?length_map; cbn [length]; nia.
Qed.

Lemma filter_sends_by a a0 target (f : pystr → pystr) (l : list pystr) :
  (length (List.filter (is_send_by a)
             (List.map (λ line, SendMsg a0 target (f line)) l))
   ≤ if bool_decide (a0 = a) then length l else 0)%nat.
Proof.
  induction l as [|x l IH]; cbn [List.map List.filter is_send_by length].
  - by destruct (bool_decide (a0 = a)).
  - destruct (bool_decide (a0 = a)); cbn [length]; lia.
Qed.

Lemma send_contents_by_length a b msg contents send_back bot_reply :
  (length (List.filter (is_send_by a)
             (send_contents E channels b msg contents send_back bot_reply).1)
   ≤ (length contents + 1)
     * length (List.filter (λ c, bool_decide (c = a)) channels))%nat.
Proof.
  unfold send_contents. induction channels as [|a0 cs IH]; cbn [for_each].
  - run. cbn [List.filter length]. lia.
  - set (rest := for_each cs _) in *. unfold getitem.
    destruct (b !! str_lower E (ChanTag a0)) as [addr|];
      [|run; cbn [List.filter length]; lia].
    pose proof (filter_sends_by a a0 addr (msg_tmpl (sender msg)) contents)
      as Hlines.
    cbn [List.filter].
    destruct (bool_decide (ChanTag a0 ≠ channel msg) || send_back);
      destruct (truthy bot_reply); run;
      rewrite ?List.filter_app, ?length_app;
      cbn [List.filter is_send_by length app];
      destruct (bool_decide (a0 = a)); cbn [length] in *; nia.
Qed.

Lemma NoDup_filter_eq (a : Adapter) (l : list Adapter) :
  NoDup l → (length (List.filter (λ c, bool_decide (c = a)) l) ≤ 1)%nat.
Proof.
  induction 1 as [|x l Hx _ IH]; cbn [List.filter length]; [lia|].
  destruct (bool_decide (x = a)) eqn:Hxa; [|done].
  apply bool_decide_eq_true_1 in Hxa as ->.
  rewrite filter_drops_all; [simpl; lia|].
  apply Forall_forall. intros c Hc. apply bool_decide_eq_false_2.
  by intros ->.
Qed.

(** A message that is relayed inline makes at most 7 calls of [send_msg]
    on any one adapter of [channels]: up to 6 lines, and the reply; so at
    most 7 times the number of adapters in all. *)
Theorem inline_sends_bounded msg c b bytes :
  get_binding E msg = Ok (Some (c, b)) →
  utf8_encode (content msg) = Some bytes →
  mtype msg ≠ MessageType.Event →
  ¬ oversized (content msg) bytes →
  NoDup channels →
  (∀ a, (length (List.filter (is_send_by a)
                   (forward E channels text_store msg).1) ≤ 7)%nat)
  ∧ (length (List.filter is_send (forward E channels text_store msg).1)
     ≤ 7 * length channels)%nat.
Proof.
  intros Hb Henc Hev Hsmall Hnodup.
  rewrite (forward_routed E channels text_store msg c b bytes Hb Henc).
  pose proof (dispatch_not_event E msg Hev) as Hev'.
  destruct (dispatch_fields E msg) as (_ & _ & _ & Hc & _).
  rewrite <- Hc in *.
  rewrite (relay_inline E channels text_store c b _ _ bytes Hev' Henc Hsmall).
  pose proof (PolicyFacts.inline_contents_short _ _ Hsmall) as Hsix.
  cbn [fst]. split.
  - intros a. cbn [List.filter is_send_by]. rewrite List.filter_app.
    rewrite filter_drops_all
      by (eapply Forall_impl; [apply log_calls_only_logs|]; by intros []).
    cbn [app].
    pose proof (send_contents_by_length a b (dispatch E msg).1
                  (inline_contents (content (dispatch E msg).1)) false
                  (dispatch E msg).2) as Hlen.
    pose proof (NoDup_filter_eq a channels Hnodup) as Hone.
    nia.
  - cbn [List.filter is_send]. rewrite List.filter_app.
    rewrite filter_drops_all
      by (eapply Forall_impl; [apply log_calls_only_logs|]; by intros []).
    rewrite filter_keeps_all by apply send_contents_only_sends.
    cbn [app].
    pose proof (send_contents_length b (dispatch E msg).1
                  (inline_contents (content (dispatch E msg).1)) false
                  (dispatch E msg).2) as Hlen.
    nia.
Qed.

(** A message of whitespace only that is neither an event nor a command
    is logged and then nothing is sent for it, to any adapter. *)
Theorem whitespace_message_relays_nothing msg c b bytes :
  get_binding E msg = Ok (Some (c, b)) →
  utf8_encode (content msg) = Some bytes →
  mtype msg ≠ MessageType.Event →
  mtype msg ≠ MessageType.Command →
  ¬ oversized (content msg) bytes →
  Forall (λ ch, isspace ch = true) (content msg) →
  List.filter is_log (forward E channels text_store msg).1 = [ChatLog c msg]
  ∧ List.filter is_send (forward E channels text_store msg).1 = [].
Proof.
  intros Hb Henc Hev Hcmd Hsmall Hblank.
  rewrite (forward_routed E channels text_store msg c b bytes Hb Henc).
  rewrite (dispatch_other E msg Hcmd). cbn [fst snd]. split.
  - cbn [List.filter is_log]. by rewrite relay_logs_once.
  - rewrite (relay_inline E channels text_store c b _ _ bytes Hev Henc Hsmall).
    cbn [fst List.filter is_send]. rewrite List.filter_app.
    rewrite filter_drops_all by by repeat constructor.
    cbn [app]. apply PolicyFacts.inline_contents_nil in Hblank.
    rewrite Hblank.
    pose proof (send_contents_only_sends E channels b msg [] false (Some []))
      as Hsends.
    destruct (send_contents E channels b msg [] false (Some [])).1
      as [|ev tr] eqn:Htr; [done|].
    apply Forall_cons in Hsends as [Hev' _]. destruct ev; try done.
    assert (Hin : SendMsg c0 target text
              ∈ (send_contents E channels b msg [] false (Some [])).1)
      by (rewrite Htr; apply elem_of_cons; by left).
    apply send_contents_quiet in Hin as (line & Hline & _); [|done].
    by apply not_elem_of_nil in Hline.
Qed.

End InlineFacts.

(** ** The policy counts bytes *)

Section ByteFacts.

Context (E : Env) (channels : list Adapter) (text_store : TextStore).

Lemma turn_pastes_iff msg c b bytes :
  get_binding E msg = Ok (Some (c, b)) →
  utf8_encode (content msg) = Some bytes →
  mtype msg ≠ MessageType.Event →
  (∃ ev, ev ∈ (forward E channels text_store msg).1 ∧ is_paste ev = true)
  ↔ oversized (content msg) bytes.
Proof.
  intros Hb Henc Hev.
  rewrite (forward_routed E channels text_store msg c b bytes Hb Henc).
  cbn [fst].
  pose proof (dispatch_not_event E msg Hev) as Hev'.
  destruct (dispatch_fields E msg) as (_ & _ & _ & Hc & _).
  set (msg' := (dispatch E msg).1) in *.
  set (bot_reply := (dispatch E msg).2) in *.
  rewrite <- Hc in Henc |- *.
  split.
  - intros (ev & Hin & Hp).
    destruct (decide (oversized (content msg') bytes)) as [|Hsmall]; [done|].
    exfalso. rewrite (relay_inline E channels text_store c b msg' bot_reply
                                   bytes Hev' Henc Hsmall) in Hin.
    cbn [fst] in Hin.
    apply elem_of_cons in Hin as [->|Hin]; [done|].
    apply elem_of_app in Hin as [Hin|Hin].
    + pose proof (log_calls_only_logs E c msg' bot_reply) as Hl.
      rewrite Forall_forall in Hl. apply Hl in Hin. by destruct ev.
    + pose proof (send_contents_only_sends E channels b msg'
                    (inline_contents (content msg')) false bot_reply) as Hl.
      rewrite Forall_forall in Hl. apply Hl in Hin. by destruct ev.
  - intros Hbig.
    exists (NewPaste (content msg') (sender msg') c (date msg') (time msg')
                     (chat_logger_log E c msg')).
    split; [|done].
    apply elem_of_cons; right.
    destruct (new_paste text_store (content msg') (sender msg') c (date msg')
                (time msg') (chat_logger_log E c msg')) as [url|] eqn:Hurl.
    + rewrite (relay_paste E channels text_store c b msg' bot_reply bytes url
                           Hev' Henc Hbig Hurl).
      cbn [fst]. apply elem_of_app; right. apply elem_of_cons; by left.
    + rewrite (relay_paste_failed E channels text_store c b msg' bot_reply
                                  bytes Hev' Henc Hbig Hurl).
      cbn [fst]. apply elem_of_app; right. apply elem_of_cons; by left.
Qed.

(** The policy counts bytes, not characters: on content made of code
    points beyond U+FFFF, which take four bytes each, the test of the
    engine is true from 100 code points on, and a routed message of such
    content that is no event is pasted exactly when it has 100 code points
    or more. *)
Theorem four_byte_text_pasted_from_100 msg c b :
  get_binding E msg = Ok (Some (c, b)) →
  mtype msg ≠ MessageType.Event →
  Forall (λ ch, 0x10000 ≤ ch < 0x110000) (content msg) →
  overflows (content msg)
  = Ok (bool_decide (100 ≤ length (content msg))%nat)
  ∧ ((∃ ev, ev ∈ (forward E channels text_store msg).1
            ∧ is_paste ev = true)
     ↔ (100 ≤ length (content msg))%nat).
Proof.
  intros Hb Hev Hwide.
  destruct (PolicyFacts.utf8_encode_astral _ Hwide) as (bytes & Henc & Hlen & Hnl).
  assert (Hover : oversized (content msg) bytes
                  ↔ (100 ≤ length (content msg))%nat).
  { unfold oversized. rewrite <- PyStrFacts.count_count_occ, Hnl, Hlen. lia. }
  split.
  - rewrite (overflows_oversized _ _ Henc). f_equal.
    by apply bool_decide_ext.
  - by rewrite (turn_pastes_iff msg c b bytes Hb Henc Hev).
Qed.

(** On ASCII content a byte is a character: the test of the engine is
    true exactly when the content has more than 5 newline characters or at
    least 400 characters, and a routed ASCII message that is no event is
    pasted exactly then. *)
Theorem ascii_text_pasted_from_400 msg c b :
  get_binding E msg = Ok (Some (c, b)) →
  mtype msg ≠ MessageType.Event →
  Forall (λ ch, ch < 0x80) (content msg) →
  overflows (content msg)
  = Ok (bool_decide ((5 < count NL (content msg))%nat
                     ∨ (400 ≤ length (content msg))%nat))
  ∧ ((∃ ev, ev ∈ (forward E channels text_store msg).1
            ∧ is_paste ev = true)
     ↔ (5 < count NL (content msg))%nat
       ∨ (400 ≤ length (content msg))%nat).
Proof.
  intros Hb Hev Hascii.
  pose proof (PolicyFacts.utf8_encode_ascii _ Hascii) as Henc.
  assert (Hover : oversized (content msg) (content msg)
                  ↔ (5 < count NL (content msg))%nat
                    ∨ (400 ≤ length (content msg))%nat).
  { unfold oversized. by rewrite <- PyStrFacts.count_count_occ. }
  split.
  - rewrite (overflows_oversized _ _ Henc). f_equal.
    by apply bool_decide_ext.
  - by rewrite (turn_pastes_iff msg c b (content msg) Hb Henc Hev).
Qed.

End ByteFacts.

(** ** The further properties at work on [Ex] *)

Lemma get_binding_first_match_witness :
  ∃ pre post,
    config_bindings Ex.env2 = pre ++ (py "room2", Ex.room2) :: post
    ∧ Ex.room2 !! str_lower Ex.env2 (channel Ex.stray)
      = Some (receiver Ex.stray)
    ∧ Forall (passes_by Ex.env2 Ex.stray) pre.
Proof.
  apply (get_binding_first_match Ex.env2 Ex.stray (py "room2") Ex.room2).
  by vm_compute.
Defined.

Lemma get_binding_only_match_witness :
  get_binding Ex.env2 Ex.stray = Ok (Some (py "room2", Ex.room2)).
Proof.
  apply (get_binding_only_match Ex.env2 Ex.stray (py "room2") Ex.room2).
  - by_decide.
  - by_decide.
  - by vm_compute.
  - intros row Hin. unfold Ex.env2 in Hin. cbn [config_bindings] in Hin.
    rewrite !elem_of_cons, elem_of_nil in Hin.
    destruct Hin as [->|[->|[]]]; vm_compute; [intros [=] | done].
Defined.

Lemma init_irc_needs_every_row_witness :
  init_irc (V := pystr)
           (mkEnv ascii_lower [(py "room1", delete (py "irc") Ex.room1)] None
                  Ex.parse Ex.handlers (λ _ _, 7%nat))
           (Some Ex.irc_section)
  = Raise (KeyError (py "irc")).
Proof.
  apply (init_irc_needs_every_row (V := pystr)).
  exists (py "room1", delete (py "irc") Ex.room1).
  split; [apply elem_of_cons; by left | by vm_compute].
Defined.

Lemma init_irc_guards_get_binding_witness :
  ∃ r, get_binding Ex.env2 Ex.stray = Ok r
       ∧ (is_Some r ↔ receiver Ex.stray ∈ [py "#a"; py "#b"]).
Proof.
  apply (init_irc_guards_get_binding (V := pystr) Ex.env2
           (Some Ex.irc_section)
           (mkIRCHandle (py "irc.example.org") (py "6697") (py "true")
                        (py "fishroom") [py "#a"; py "#b"] (py ""))
           Ex.stray).
  - by vm_compute.
  - by vm_compute.
Defined.

Lemma init_xmpp_guards_get_binding_witness :
  ∃ r, get_binding Ex.env2 Ex.from_xmpp = Ok r
       ∧ (is_Some r ↔ receiver Ex.from_xmpp ∈ [py "room@conf"; py "b@conf"]).
Proof.
  refine (proj2 (init_xmpp_guards_get_binding (V := pystr) Ex.env2
           (Some Ex.xmpp_section)
           (mkXMPPHandle (py "xmpp.example.org") (py "5222")
                         (py "bot@example.org") (py "secret")
                         [py "room@conf"; py "b@conf"] (py "fishroom"))
           Ex.from_xmpp _ _)).
  - by vm_compute.
  - by vm_compute.
Defined.

Lemma routed_logged_first_witness :
  ∃ rest,
    (forward Ex.env Ex.channels Ex.store_ok Ex.cmd_ping).1
    = Print (DiagMsg Ex.cmd_ping (Some (py "room1")) 5)
        :: log_calls Ex.env (py "room1") (dispatch Ex.env Ex.cmd_ping).1
                     (dispatch Ex.env Ex.cmd_ping).2 ++ rest
    ∧ Forall (λ ev, is_log ev = false) rest.
Proof.
  apply (routed_logged_first Ex.env Ex.channels Ex.store_ok Ex.cmd_ping
           (py "room1") Ex.room1 (py "!ping")).
  - by vm_compute.
  - by vm_compute.
Defined.

Lemma quiet_command_relayed_unchanged_witness :
  List.filter is_log
    (forward Ex.env Ex.channels Ex.store_ok
             (Ex.from_irc (py "!nope") MessageType.Command)).1
  = [ChatLog (py "room1") (Ex.from_irc (py "!nope") MessageType.Command)].
Proof.
  refine (proj1 (proj2 (quiet_command_relayed_unchanged
            Ex.env Ex.channels Ex.store_ok
            (Ex.from_irc (py "!nope") MessageType.Command)
            (py "room1") Ex.room1 (py "!nope") (Some []) _ _ _ _ _))).
  - by vm_compute.
  - by vm_compute.
  - reflexivity.
  - by vm_compute.
  - reflexivity.
Defined.

Lemma event_never_pasted_witness :
  Forall (λ ev, is_paste ev = false)
    (forward Ex.env Ex.channels Ex.store_ok
             (Ex.from_irc (replicate 401 120) MessageType.Event)).1.
Proof.
  apply (event_never_pasted Ex.env Ex.channels Ex.store_ok
           (Ex.from_irc (replicate 401 120) MessageType.Event)).
  reflexivity.
Defined.

Lemma fanout_stops_at_unbound_adapter_witness :
  forward Ex.env_no_xmpp Ex.channels Ex.store_ok Ex.hi
  = ([Print (DiagMsg Ex.hi (Some (py "room1")) 2);
      ChatLog (py "room1") Ex.hi;
      SendMsg Ex.tghandle (py "-100123") (py "[alice] hi")],
     Raise (KeyError (py "xmpp"))).
Proof.
  refine (fanout_stops_at_unbound_adapter Ex.env_no_xmpp Ex.store_ok Ex.hi
            (py "room1") (delete (py "xmpp") Ex.room1) (py "hi")
            [Ex.tghandle; Ex.irchandle] Ex.xmpphandle [] _ _ _ _ _ _).
  - by vm_compute.
  - by vm_compute.
  - by vm_compute.
  - unfold oversized. vm_compute. lia.
  - unfold binds. by_decide.
  - by vm_compute.
Defined.

Lemma ForwardingThread_stops_on_raise_witness :
  ForwardingThread Ex.env_no_xmpp Ex.channels Ex.store_ok
                   ([Ex.stray] ++ Ex.hi :: [Ex.hi; Ex.long])
  = ((ForwardingThread Ex.env_no_xmpp Ex.channels Ex.store_ok [Ex.stray]).1
       ++ (forward Ex.env_no_xmpp Ex.channels Ex.store_ok Ex.hi).1,
     Raise (KeyError (py "xmpp"))).
Proof.
  apply (ForwardingThread_stops_on_raise Ex.env_no_xmpp Ex.store_ok
           Ex.channels [Ex.stray] Ex.hi [Ex.hi; Ex.long]
           (KeyError (py "xmpp"))).
  - by vm_compute.
  - by vm_compute.
Defined.

Lemma inline_at_most_six_lines_witness :
  (length (inline_contents (content Ex.lines)) ≤ 6)%nat.
Proof.
  apply (PolicyFacts.inline_at_most_six_lines
           (content Ex.lines) (content Ex.lines)).
  unfold oversized. vm_compute. lia.
Defined.

Lemma inline_lines_under_400_bytes_witness :
  ∃ lb, utf8_encode (py "one") = Some lb ∧ (length lb < 400)%nat.
Proof.
  apply (PolicyFacts.inline_lines_under_400_bytes
           (content Ex.lines) (content Ex.lines) (py "one")).
  - by vm_compute.
  - unfold oversized. vm_compute. lia.
  - by_decide.
Defined.

Lemma single_line_relayed_verbatim_witness :
  inline_contents (py "hi") = [py "hi"].
Proof.
  apply (PolicyFacts.single_line_relayed_verbatim (py "hi")).
  - by_decide.
  - by_decide.
Defined.

Lemma inline_sends_bounded_witness :
  (length (List.filter (is_send_by Ex.tghandle)
             (forward Ex.env Ex.channels Ex.store_ok Ex.lines).1) ≤ 7)%nat.
Proof.
  refine (proj1 (inline_sends_bounded Ex.env Ex.channels Ex.store_ok Ex.lines
                   (py "room1") Ex.room1 (content Ex.lines) _ _ _ _ _)
                Ex.tghandle).
  - by vm_compute.
  - by vm_compute.
  - by vm_compute.
  - unfold oversized. vm_compute. lia.
  - by_decide.
Defined.

Lemma whitespace_message_relays_nothing_witness :
  List.filter is_log
    (forward Ex.env Ex.channels Ex.store_ok
             (Ex.from_irc [32; NL; 9] MessageType.Text)).1
  = [ChatLog (py "room1") (Ex.from_irc [32; NL; 9] MessageType.Text)]
  ∧ List.filter is_send
      (forward Ex.env Ex.channels Ex.store_ok
               (Ex.from_irc [32; NL; 9] MessageType.Text)).1 = [].
Proof.
  apply (whitespace_message_relays_nothing Ex.env Ex.channels Ex.store_ok
           (Ex.from_irc [32; NL; 9] MessageType.Text)
           (py "room1") Ex.room1 [32; NL; 9]).
  - by vm_compute.
  - by vm_compute.
  - by vm_compute.
  - by vm_compute.
  - unfold oversized. vm_compute. lia.
  - by_decide.
Defined.

(** 100 code points of U+1F41F are 400 bytes and are pasted; 99 of them
    are not. *)
Lemma four_byte_text_pasted_from_100_witness :
  (∃ ev, ev ∈ (forward Ex.env Ex.channels Ex.store_ok
                       (Ex.from_irc (replicate 100 0x1F41F)
                                    MessageType.Text)).1
         ∧ is_paste ev = true)
  ∧ ¬ (∃ ev, ev ∈ (forward Ex.env Ex.channels Ex.store_ok
                           (Ex.from_irc (replicate 99 0x1F41F)
                                        MessageType.Text)).1
             ∧ is_paste ev = true).
Proof.
  split.
  - refine (proj2 (proj2 (four_byte_text_pasted_from_100
              Ex.env Ex.channels Ex.store_ok
              (Ex.from_irc (replicate 100 0x1F41F) MessageType.Text)
              (py "room1") Ex.room1 _ _ _)) _).
    + by vm_compute.
    + by vm_compute.
    + by_decide.
    + vm_compute. lia.
  - intros H.
    refine (_ (proj1 (proj2 (four_byte_text_pasted_from_100
              Ex.env Ex.channels Ex.store_ok
              (Ex.from_irc (replicate 99 0x1F41F) MessageType.Text)
              (py "room1") Ex.room1 _ _ _)) H)).
    + vm_compute. lia.
    + by vm_compute.
    + by vm_compute.
    + by_decide.
Defined.

Lemma ascii_text_pasted_from_400_witness :
  ∃ ev, ev ∈ (forward Ex.env Ex.channels Ex.store_ok Ex.long).1
        ∧ is_paste ev = true.
Proof.
  refine (proj2 (proj2 (ascii_text_pasted_from_400
            Ex.env Ex.channels Ex.store_ok Ex.long
            (py "room1") Ex.room1 _ _ _)) _).
  - by vm_compute.
  - by vm_compute.
  - by_decide.
  - right. vm_compute. lia.
Defined.
